(** * myPlantApp: the identification core

    A shallow embedding of the request/response translation of the
    plant identifier: the browser-side [identifyImage] (proxied and
    direct variants of [services/geminiService.ts]) and the serverless
    [handler] ([netlify/functions/identify.ts], English and Lao
    variants), together with the pieces of the JavaScript platform they
    call ([String.prototype.trim], [String.prototype.match] on the fence
    regular expression, [JSON.parse], [JSON.stringify]).

    JavaScript strings are sequences of UTF-16 code units, exceptions are
    explicit ([completion]), and everything the platform leaves
    implementation-defined (the value of a number literal, the text of a
    [SyntaxError]) is a field of the [Engine] class. *)

From Stdlib Require Import String Ascii.
From Stdlib Require Import List Arith NArith Bool Lia.
Import ListNotations.
Local Open Scope N_scope.

(* ================================================================== *)
(** * JavaScript strings *)

(** A JavaScript string: its UTF-16 code units. *)
Definition jstring := list N.

(** UTF-16 code units of one code point. *)
Definition utf16_of_point (cp : N) : jstring :=
  if cp <? 0x10000 then [cp]
  else [0xD800 + (cp - 0x10000) / 1024; 0xDC00 + (cp - 0x10000) mod 1024].

(** Decoder for the UTF-8 bytes of a source literal; [need] counts the
    continuation bytes still expected and [acc] holds the bits read. *)
Fixpoint utf8_decode (need : nat) (acc : N) (bs : list N) : jstring :=
  match bs with
  | [] => []
  | b :: bs' =>
      match need with
      | O =>
          if b <? 0x80 then b :: utf8_decode 0 0 bs'
          else if b <? 0xE0 then utf8_decode 1 (N.land b 0x1F) bs'
          else if b <? 0xF0 then utf8_decode 2 (N.land b 0x0F) bs'
          else utf8_decode 3 (N.land b 0x07) bs'
      | S O => utf16_of_point (acc * 64 + N.land b 0x3F) ++ utf8_decode 0 0 bs'
      | S k => utf8_decode k (acc * 64 + N.land b 0x3F) bs'
      end
  end.

(** A string literal of the source, as the JavaScript string it denotes. *)
Definition js (s : string) : jstring :=
  utf8_decode 0 0 (map N_of_ascii (list_ascii_of_string s)).

Fixpoint jstring_eqb (a b : jstring) : bool :=
  match a, b with
  | [], [] => true
  | x :: a', y :: b' => (x =? y) && jstring_eqb a' b'
  | _, _ => false
  end.

(** [!s] is false exactly for the empty string. *)
Definition string_truthy (s : jstring) : bool :=
  match s with [] => false | _ => true end.

(** WhiteSpace and LineTerminator code points: what [trim] removes and
    what [\s] matches. *)
Definition is_white_space (c : N) : bool :=
  (c =? 0x9) || (c =? 0xA) || (c =? 0xB) || (c =? 0xC) || (c =? 0xD)
  || (c =? 0x20) || (c =? 0xA0) || (c =? 0x1680)
  || ((0x2000 <=? c) && (c <=? 0x200A))
  || (c =? 0x2028) || (c =? 0x2029) || (c =? 0x202F) || (c =? 0x205F)
  || (c =? 0x3000) || (c =? 0xFEFF).

(** [\w] without the [i] and [u] flags: [A-Za-z0-9_]. *)
Definition is_word_char (c : N) : bool :=
  ((0x41 <=? c) && (c <=? 0x5A)) || ((0x61 <=? c) && (c <=? 0x7A))
  || ((0x30 <=? c) && (c <=? 0x39)) || (c =? 0x5F).

(** [.] under the [s] flag. *)
Definition any_char (c : N) : bool := true.

Fixpoint drop_while (p : N -> bool) (s : jstring) : jstring :=
  match s with
  | [] => []
  | c :: s' => if p c then drop_while p s' else s
  end.

Definition trim_start (s : jstring) : jstring := drop_while is_white_space s.
Definition trim_end (s : jstring) : jstring := rev (drop_while is_white_space (rev s)).

(** [String.prototype.trim]. *)
Definition trim (s : jstring) : jstring := trim_end (trim_start s).

(** Decimal digits of a non-negative integer, as in a template literal. *)
Fixpoint decimal_digits (fuel : nat) (n : N) (acc : jstring) : jstring :=
  match fuel with
  | O => acc
  | S f =>
      let acc' := (0x30 + n mod 10) :: acc in
      if n <? 10 then acc' else decimal_digits f (n / 10) acc'
  end.

Definition decimal (n : N) : jstring := decimal_digits (S (N.to_nat (N.log2 n))) n [].

(* ================================================================== *)
(** * Regular expressions

    A backtracking matcher in continuation-passing style, following the
    order of alternatives of the ECMAScript pattern semantics.  Starred
    atoms are single-character classes, as in the one pattern of the
    program. *)

Inductive regex :=
| RBol                                    (* ^  (no m flag) *)
| REol                                    (* $  (no m flag) *)
| RChar (c : N)
| RStar (greedy : bool) (p : N -> bool)   (* class* and class*? *)
| ROpt (r : regex)                        (* r? *)
| RGroup (i : nat) (r : regex)            (* i-th capturing group *)
| RSeq (r1 r2 : regex).

(** Captures: group number to captured text. *)
Definition captures := list (nat * jstring).

Fixpoint capture (i : nat) (cs : captures) : option jstring :=
  match cs with
  | [] => None
  | (j, s) :: cs' => if Nat.eqb i j then Some s else capture i cs'
  end.

(** A continuation receives the end index, the unread input and the
    captures. *)
Definition cont := nat -> jstring -> captures -> option captures.

Fixpoint star_greedy (p : N -> bool) (pos : nat) (s : jstring) (cs : captures) (k : cont)
  : option captures :=
  match s with
  | c :: s' =>
      if p c then
        match star_greedy p (S pos) s' cs k with
        | Some r => Some r
        | None => k pos s cs
        end
      else k pos s cs
  | [] => k pos s cs
  end.

Fixpoint star_lazy (p : N -> bool) (pos : nat) (s : jstring) (cs : captures) (k : cont)
  : option captures :=
  match k pos s cs with
  | Some r => Some r
  | None =>
      match s with
      | c :: s' => if p c then star_lazy p (S pos) s' cs k else None
      | [] => None
      end
  end.

Fixpoint rmatch (r : regex) (pos : nat) (s : jstring) (cs : captures) (k : cont)
  : option captures :=
  match r with
  | RBol => if Nat.eqb pos 0 then k pos s cs else None
  | REol => match s with [] => k pos s cs | _ :: _ => None end
  | RChar c =>
      match s with
      | d :: s' => if c =? d then k (S pos) s' cs else None
      | [] => None
      end
  | RStar true p => star_greedy p pos s cs k
  | RStar false p => star_lazy p pos s cs k
  | ROpt r1 =>
      (* an iteration that matches the empty string is rejected *)
      match rmatch r1 pos s cs
              (fun pos' s' cs' => if Nat.eqb pos' pos then None else k pos' s' cs') with
      | Some res => Some res
      | None => k pos s cs
      end
  | RGroup i r1 =>
      rmatch r1 pos s cs
        (fun pos' s' cs' => k pos' s' ((i, firstn (pos' - pos) s) :: cs'))
  | RSeq r1 r2 =>
      rmatch r1 pos s cs (fun pos' s' cs' => rmatch r2 pos' s' cs' k)
  end.

(** The search of [RegExp.prototype.exec]: the first start index, from
    [pos] on, at which the pattern matches. *)
Fixpoint exec_from (r : regex) (pos : nat) (s : jstring) : option captures :=
  match rmatch r pos s [] (fun _ _ cs => Some cs) with
  | Some cs => Some cs
  | None =>
      match s with
      | [] => None
      | _ :: s' => exec_from r (S pos) s'
      end
  end.

(** [str.match(re)] for a pattern without the [g] flag. *)
Definition String_match (str : jstring) (re : regex) : option captures :=
  exec_from re 0 str.

Definition backtick : N := 0x60.

Fixpoint rseq (rs : list regex) : regex :=
  match rs with
  | [] => RStar true (fun _ => false)
  | [r] => r
  | r :: rs' => RSeq r (rseq rs')
  end.

(** The pattern of [fenceRegex] (flag [s]): start of input, three
    backticks, an optional group 1 of word characters, white space, an
    optional line feed, a lazy group 2 of any characters, an optional
    line feed, white space, three backticks, end of input. *)
Definition fenceRegex : regex :=
  rseq [ RBol; RChar backtick; RChar backtick; RChar backtick;
         ROpt (RGroup 1 (RStar true is_word_char));
         RStar true is_white_space;
         ROpt (RChar 0xA);
         RGroup 2 (RStar false any_char);
         ROpt (RChar 0xA);
         RStar true is_white_space;
         RChar backtick; RChar backtick; RChar backtick; REol ].

(** Lines 243-248 of [handler] (191-196 of the direct [identifyImage]):
    trim, then keep the body of a fenced block when the pattern matches
    and its second group is non-empty. *)
Definition extractJson (responseText : jstring) : jstring :=
  let jsonStr := trim responseText in
  match String_match jsonStr fenceRegex with
  | Some m =>
      match capture 2 m with
      | Some body => if string_truthy body then trim body else jsonStr
      | None => jsonStr
      end
  | None => jsonStr
  end.

(* ================================================================== *)
(** * Exceptions *)

(** A thrown value: an instance of [Error] with its [name] and
    [message], or any other value (a DOM event, a string, ...). *)
Inductive thrown :=
| ErrorObject (name message : jstring)
| NotAnError.

(** [error instanceof Error] *)
Definition instanceof_Error (e : thrown) : bool :=
  match e with ErrorObject _ _ => true | NotAnError => false end.

(** [new Error(msg)] *)
Definition new_Error (msg : jstring) : thrown := ErrorObject (js "Error") msg.

(** The outcome of evaluating a block, or of awaiting a promise: a value,
    or a thrown exception (a rejection). *)
Inductive completion (A : Type) :=
| Normal (a : A)
| Throw (e : thrown).
Arguments Normal {A} a.
Arguments Throw {A} e.

Definition bind {A B : Type} (m : completion A) (k : A -> completion B) : completion B :=
  match m with
  | Normal a => k a
  | Throw e => Throw e
  end.

Notation "x <- m ;; k" := (bind m (fun x => k))
  (at level 61, m at next level, right associativity).

(** [try { m } catch (error) { h error }] *)
Definition try_catch {A : Type} (m : completion A) (h : thrown -> completion A) : completion A :=
  match m with
  | Normal a => Normal a
  | Throw e => h e
  end.

(* ================================================================== *)
(** * The JavaScript engine

    What ECMA-262 leaves to the implementation, or what needs IEEE
    arithmetic: how a JSON number literal becomes a Number, whether that
    Number is truthy, how [JSON.stringify] prints it, and the messages of
    the built-in exceptions. *)

Class Engine := {
  number : Type;
  (** the Number denoted by a JSON number literal *)
  StringToNumber : jstring -> number;
  (** [ToBoolean]: false for zeros and NaN *)
  NumberToBoolean : number -> bool;
  (** the text [JSON.stringify] gives a Number ([null] when not finite) *)
  NumberToJSON : number -> jstring;
  (** message of the [SyntaxError] that [JSON.parse] throws on a text *)
  SyntaxErrorMessage : jstring -> jstring;
  (** message of the [TypeError] thrown by reading a property of [null]
      or [undefined] *)
  TypeErrorMessage : jstring -> jstring
}.

(* ================================================================== *)
(** * JSON *)

Section JSON.
Context {E : Engine}.

(** The values [JSON.parse] produces.  An object keeps its members in
    creation order, each key once. *)
#[warnings="-register-all"]
Inductive json :=
| JNull
| JBool (b : bool)
| JNumber (n : number)
| JString (s : jstring)
| JArray (elements : list json)
| JObject (members : list (jstring * json)).

(** [CreateDataProperty]: a known key keeps its place and takes the new
    value, a new key goes last. *)
Fixpoint obj_set (m : list (jstring * json)) (k : jstring) (v : json) : list (jstring * json) :=
  match m with
  | [] => [(k, v)]
  | (k', v') :: m' =>
      if jstring_eqb k k' then (k', v) :: m' else (k', v') :: obj_set m' k v
  end.

Fixpoint obj_get (m : list (jstring * json)) (k : jstring) : option json :=
  match m with
  | [] => None
  | (k', v) :: m' => if jstring_eqb k k' then Some v else obj_get m' k
  end.

(** [ToBoolean] of a value; [None] stands for [undefined]. *)
Definition truthy (v : option json) : bool :=
  match v with
  | None => false
  | Some JNull => false
  | Some (JBool b) => b
  | Some (JNumber n) => NumberToBoolean n
  | Some (JString s) => string_truthy s
  | Some (JArray _) => true
  | Some (JObject _) => true
  end.

(** [typeof v === 'string'] *)
Definition is_string (v : option json) : bool :=
  match v with
  | Some (JString _) => true
  | _ => false
  end.

(** [v.k] for one of the keys the program reads ([error], [message],
    [imageData], [mimeType]), none of which is found on a prototype:
    [undefined] unless [v] is an object that has [k] as member, and a
    [TypeError] when [v] is [null]. *)
Definition get_property (v : json) (k : jstring) : completion (option json) :=
  match v with
  | JNull => Throw (ErrorObject (js "TypeError") (TypeErrorMessage k))
  | JObject m => Normal (obj_get m k)
  | _ => Normal None
  end.

(** [a || b] on values. *)
Definition js_or (a : option json) (b : json) : json :=
  match a with
  | Some v => if truthy a then v else b
  | None => b
  end.

(** ** Lexical grammar *)

Inductive token :=
| TLBrace | TRBrace | TLBracket | TRBracket | TColon | TComma
| TString (s : jstring)
| TNumber (literal : jstring)
| TTrue | TFalse | TNull.

Definition is_json_ws (c : N) : bool :=
  (c =? 0x9) || (c =? 0xA) || (c =? 0xD) || (c =? 0x20).

Definition is_digit (c : N) : bool := (0x30 <=? c) && (c <=? 0x39).

Definition hex_value (c : N) : option N :=
  if is_digit c then Some (c - 0x30)
  else if (0x41 <=? c) && (c <=? 0x46) then Some (c - 0x41 + 10)
  else if (0x61 <=? c) && (c <=? 0x66) then Some (c - 0x61 + 10)
  else None.

Fixpoint span (p : N -> bool) (s : jstring) : jstring * jstring :=
  match s with
  | [] => ([], [])
  | c :: s' =>
      if p c then let (a, b) := span p s' in (c :: a, b) else ([], s)
  end.

(** The characters of a string literal after its opening quote: the
    string denoted, and the number of code units read, closing quote
    included. *)
Fixpoint lex_string (s : jstring) : option (jstring * nat) :=
  match s with
  | [] => None
  | c :: s' =>
      if c =? 0x22 then Some ([], 1%nat)
      else if c =? 0x5C then
        match s' with
        | [] => None
        | e :: s'' =>
            let simple (d : N) :=
              match lex_string s'' with
              | Some (v, n) => Some (d :: v, (2 + n)%nat)
              | None => None
              end in
            if e =? 0x22 then simple 0x22          (* quote *)
            else if e =? 0x5C then simple 0x5C     (* backslash *)
            else if e =? 0x2F then simple 0x2F     (* solidus *)
            else if e =? 0x62 then simple 0x8      (* backspace *)
            else if e =? 0x66 then simple 0xC      (* form feed *)
            else if e =? 0x6E then simple 0xA      (* line feed *)
            else if e =? 0x72 then simple 0xD      (* carriage return *)
            else if e =? 0x74 then simple 0x9      (* tab *)
            else if e =? 0x75 then                 (* u and four hex digits *)
              match s'' with
              | h1 :: h2 :: h3 :: h4 :: s3 =>
                  match hex_value h1, hex_value h2, hex_value h3, hex_value h4 with
                  | Some a, Some b, Some c', Some d =>
                      match lex_string s3 with
                      | Some (v, n) =>
                          Some (((a * 16 + b) * 16 + c') * 16 + d :: v, (6 + n)%nat)
                      | None => None
                      end
                  | _, _, _, _ => None
                  end
              | _ => None
              end
            else None
        end
      else if c <? 0x20 then None
      else
        match lex_string s' with
        | Some (v, n) => Some (c :: v, S n)
        | None => None
        end
  end.

(** A number literal at the head of [s]: an optional minus sign; a
    zero, or a non-zero digit and further digits; optionally a point and
    one or more digits; optionally [e] or [E], an optional sign and one
    or more digits. *)
Definition lex_number (s : jstring) : option jstring :=
  let (sign, s1) :=
    match s with
    | c :: s' => if c =? 0x2D then ([c], s') else ([], s)
    | [] => ([], s)
    end in
  let int_part :=
    match s1 with
    | c :: s' =>
        if c =? 0x30 then Some ([c], s')
        else if is_digit c then Some (span is_digit s1)
        else None
    | [] => None
    end in
  match int_part with
  | None => None
  | Some (int, s2) =>
      let frac_part :=
        match s2 with
        | c :: s' =>
            if c =? 0x2E then
              let (ds, r) := span is_digit s' in
              match ds with [] => None | _ => Some (c :: ds, r) end
            else Some ([], s2)
        | [] => Some ([], s2)
        end in
      match frac_part with
      | None => None
      | Some (frac, s3) =>
          let exp_part :=
            match s3 with
            | c :: s' =>
                if (c =? 0x65) || (c =? 0x45) then
                  let (sg, s'') :=
                    match s' with
                    | d :: t => if (d =? 0x2B) || (d =? 0x2D) then ([d], t) else ([], s')
                    | [] => ([], s')
                    end in
                  let (ds, _) := span is_digit s'' in
                  match ds with [] => None | _ => Some (c :: sg ++ ds) end
                else Some []
            | [] => Some []
            end in
          match exp_part with
          | None => None
          | Some ex => Some (sign ++ int ++ frac ++ ex)
          end
      end
  end.

Fixpoint starts_with (p s : jstring) : bool :=
  match p, s with
  | [], _ => true
  | x :: p', y :: s' => (x =? y) && starts_with p' s'
  | _ :: _, [] => false
  end.

(** The token at the head of [s] (which does not start with white
    space) and its length in code units. *)
Definition next_token (s : jstring) : option (token * nat) :=
  match s with
  | [] => None
  | c :: s' =>
      if c =? 0x7B then Some (TLBrace, 1%nat)
      else if c =? 0x7D then Some (TRBrace, 1%nat)
      else if c =? 0x5B then Some (TLBracket, 1%nat)
      else if c =? 0x5D then Some (TRBracket, 1%nat)
      else if c =? 0x3A then Some (TColon, 1%nat)
      else if c =? 0x2C then Some (TComma, 1%nat)
      else if c =? 0x22 then
        match lex_string s' with
        | Some (v, n) => Some (TString v, S n)
        | None => None
        end
      else if starts_with (js "true") s then Some (TTrue, 4%nat)
      else if starts_with (js "false") s then Some (TFalse, 5%nat)
      else if starts_with (js "null") s then Some (TNull, 4%nat)
      else
        match lex_number s with
        | Some lit => Some (TNumber lit, length lit)
        | None => None
        end
  end.

(** The tokens of a text.  [skip] counts the code units of the current
    token that are still to be passed over. *)
Fixpoint tokenize (skip : nat) (s : jstring) : option (list token) :=
  match s with
  | [] => Some []
  | c :: s' =>
      match skip with
      | S k => tokenize k s'
      | O =>
          if is_json_ws c then tokenize 0 s'
          else
            match next_token s with
            | Some (t, n) =>
                match tokenize (pred n) s' with
                | Some ts => Some (t :: ts)
                | None => None
                end
            | None => None
            end
      end
  end.

(** ** Syntactic grammar: a pushdown automaton over the tokens *)

(** An open container: an array with its elements so far (last first),
    an object with its members so far, or an object whose next value
    belongs to key [k]. *)
Inductive frame :=
| FArray (elements : list json)
| FObject (members : list (jstring * json))
| FMember (members : list (jstring * json)) (k : jstring).

Inductive mode :=
| WantValue          (* a value *)
| WantValueOrEnd     (* after [:  a value or ] *)
| WantKeyOrEnd       (* after {:  a key or } *)
| WantKey            (* after , in an object: a key *)
| WantColon          (* after a key *)
| AfterValue         (* after a value: , or a closing bracket *)
| Done (v : json).   (* the whole text has been read as v *)

(** A completed value goes to the innermost open container, or is the
    result. *)
Definition deliver (v : json) (stack : list frame) : option (list frame * mode) :=
  match stack with
  | [] => Some ([], Done v)
  | FArray es :: st => Some (FArray (v :: es) :: st, AfterValue)
  | FMember m k :: st => Some (FObject (obj_set m k v) :: st, AfterValue)
  | FObject _ :: _ => None
  end.

Definition scalar (t : token) : option json :=
  match t with
  | TString s => Some (JString s)
  | TNumber lit => Some (JNumber (StringToNumber lit))
  | TTrue => Some (JBool true)
  | TFalse => Some (JBool false)
  | TNull => Some JNull
  | _ => None
  end.

Definition begin_value (t : token) (stack : list frame) : option (list frame * mode) :=
  match t with
  | TLBracket => Some (FArray [] :: stack, WantValueOrEnd)
  | TLBrace => Some (FObject [] :: stack, WantKeyOrEnd)
  | _ =>
      match scalar t with
      | Some v => deliver v stack
      | None => None
      end
  end.

Definition begin_member (t : token) (stack : list frame) : option (list frame * mode) :=
  match t, stack with
  | TString k, FObject m :: st => Some (FMember m k :: st, WantColon)
  | _, _ => None
  end.

Definition step (st : list frame * mode) (t : token) : option (list frame * mode) :=
  let (stack, md) := st in
  match md with
  | WantValue => begin_value t stack
  | WantValueOrEnd =>
      match t, stack with
      | TRBracket, FArray es :: st' => deliver (JArray (rev es)) st'
      | _, _ => begin_value t stack
      end
  | WantKeyOrEnd =>
      match t, stack with
      | TRBrace, FObject m :: st' => deliver (JObject m) st'
      | _, _ => begin_member t stack
      end
  | WantKey => begin_member t stack
  | WantColon =>
      match t with
      | TColon => Some (stack, WantValue)
      | _ => None
      end
  | AfterValue =>
      match t, stack with
      | TComma, FArray _ :: _ => Some (stack, WantValue)
      | TComma, FObject _ :: _ => Some (stack, WantKey)
      | TRBracket, FArray es :: st' => deliver (JArray (rev es)) st'
      | TRBrace, FObject m :: st' => deliver (JObject m) st'
      | _, _ => None
      end
  | Done _ => None
  end.

Fixpoint run (st : list frame * mode) (ts : list token) : option (list frame * mode) :=
  match ts with
  | [] => Some st
  | t :: ts' =>
      match step st t with
      | Some st' => run st' ts'
      | None => None
      end
  end.

Definition parse_tokens (ts : list token) : option json :=
  match run ([], WantValue) ts with
  | Some ([], Done v) => Some v
  | _ => None
  end.

(** The value a text denotes, if it is a JSON text. *)
Definition parse_json (text : jstring) : option json :=
  match tokenize 0 text with
  | Some ts => parse_tokens ts
  | None => None
  end.

(** [JSON.parse(text)] *)
Definition JSON_parse (text : jstring) : completion json :=
  match parse_json text with
  | Some v => Normal v
  | None => Throw (ErrorObject (js "SyntaxError") (SyntaxErrorMessage text))
  end.


(** ** JSON.stringify *)

Definition hex_digit (n : N) : N := if n <? 10 then 0x30 + n else 0x61 + (n - 10).

(** [UnicodeEscape]: a backslash, [u] and four lower-case hex digits. *)
Definition unicode_escape (c : N) : jstring :=
  [0x5C; 0x75; hex_digit (c / 4096 mod 16); hex_digit (c / 256 mod 16);
   hex_digit (c / 16 mod 16); hex_digit (c mod 16)].

Definition is_high_surrogate (c : N) : bool := (0xD800 <=? c) && (c <=? 0xDBFF).
Definition is_low_surrogate (c : N) : bool := (0xDC00 <=? c) && (c <=? 0xDFFF).

Definition quote_unit (c : N) : jstring :=
  if c =? 0x8 then js "\b"
  else if c =? 0x9 then js "\t"
  else if c =? 0xA then js "\n"
  else if c =? 0xC then js "\f"
  else if c =? 0xD then js "\r"
  else if c =? 0x22 then [0x5C; 0x22]
  else if c =? 0x5C then [0x5C; 0x5C]
  else if c <? 0x20 then unicode_escape c
  else [c].

(** The characters of [QuoteJSONString], code point by code point: a
    surrogate pair is kept, a lone surrogate is escaped. *)
Fixpoint quote_units (s : jstring) : jstring :=
  match s with
  | [] => []
  | c :: s' =>
      if is_high_surrogate c then
        match s' with
        | d :: s'' =>
            if is_low_surrogate d then c :: d :: quote_units s''
            else unicode_escape c ++ quote_units s'
        | [] => unicode_escape c
        end
      else if is_low_surrogate c then unicode_escape c ++ quote_units s'
      else quote_unit c ++ quote_units s'
  end.

Definition QuoteJSONString (s : jstring) : jstring :=
  0x22 :: quote_units s ++ [0x22].

Fixpoint digits_value (acc : N) (s : jstring) : N :=
  match s with
  | [] => acc
  | c :: s' => digits_value (acc * 10 + (c - 0x30)) s'
  end.

(** A key that is an array index: the canonical decimal text of an
    integer below [2^32 - 1]. *)
Definition array_index (k : jstring) : option N :=
  match k with
  | [] => None
  | c :: rest =>
      if forallb is_digit k && (negb (c =? 0x30) || negb (string_truthy rest)) then
        let n := digits_value 0 k in
        if n <? 4294967295 then Some n else None
      else None
  end.

Fixpoint insert_index {A : Type} (i : N) (x : A) (l : list (N * A)) : list (N * A) :=
  match l with
  | [] => [(i, x)]
  | (j, y) :: l' => if i <? j then (i, x) :: l else (j, y) :: insert_index i x l'
  end.

(** [OrdinaryOwnPropertyKeys]: array indices in ascending order, then the
    other keys in creation order. *)
Definition own_properties {A : Type} (m : list (jstring * A)) : list (jstring * A) :=
  let indexed :=
    fold_left
      (fun acc kv => match array_index (fst kv) with
                     | Some i => insert_index i kv acc
                     | None => acc
                     end) m [] in
  map snd indexed
  ++ filter (fun kv => match array_index (fst kv) with Some _ => false | None => true end) m.

Fixpoint join_comma (l : list jstring) : jstring :=
  match l with
  | [] => []
  | [x] => x
  | x :: l' => x ++ 0x2C :: join_comma l'
  end.

(** [JSON.stringify(v)], no replacer and no indentation. *)
Fixpoint JSON_stringify (v : json) : jstring :=
  match v with
  | JNull => js "null"
  | JBool true => js "true"
  | JBool false => js "false"
  | JNumber n => NumberToJSON n
  | JString s => QuoteJSONString s
  | JArray es => 0x5B :: join_comma (map JSON_stringify es) ++ [0x5D]
  | JObject m =>
      let printed := map (fun kv => (fst kv, JSON_stringify (snd kv))) m in
      0x7B :: join_comma (map (fun kt => QuoteJSONString (fst kt) ++ 0x3A :: snd kt)
                              (own_properties printed)) ++ [0x7D]
  end.

End JSON.


(* ================================================================== *)
(** * Shared types of the services *)

(** [event.httpMethod] and [event.body] (a string or [null]) of a Netlify
    [HandlerEvent]. *)
Record HandlerEvent := {
  httpMethod : jstring;
  event_body : option jstring
}.

Record HandlerResponse := {
  statusCode : N;
  body : jstring;
  headers : list (jstring * jstring)
}.

(** What [FileReader.readAsDataURL] ends in: [onload] with the data URL,
    or [onerror] with a progress event. *)
Inductive ReadOutcome :=
| Loaded (result : jstring)
| ReadError.

Record File := {
  type : jstring;
  content : ReadOutcome
}.

Record RequestInit := {
  init_method : jstring;
  init_headers : list (jstring * jstring);
  init_body : jstring
}.

(** A [fetch] response: its status and the text of its body, if it can
    be read. *)
Record Response := {
  status : N;
  text : completion jstring
}.

Definition Fetch := jstring -> RequestInit -> completion Response.

Section Services.
Context {E : Engine}.

(** [ai.models.generateContent] as one call site uses it: the hosted
    model, an opaque function of the API key and of the image part
    ([mimeType], [data]).  The model name and the configuration are the
    same constants at every call site.  The prompt is a constant of each
    call site, and the two handlers and the direct client each have a
    prompt of their own: the function stands for the model under the
    prompt of the call site it is given to, and nothing relates what the
    model returns at two call sites.  It throws, or returns a response
    whose [text] is a string or [undefined]. *)
Definition GenerateContent :=
  jstring -> option json -> option json -> completion (option jstring).

(** [ToBoolean] of a value that is a string or [undefined]: true exactly
    for a non-empty string. *)
Definition opt_truthy (k : option jstring) : bool :=
  match k with Some s => string_truthy s | None => false end.

(** The string of a value known to be truthy. *)
Definition the_string (k : option jstring) : jstring :=
  match k with Some s => s | None => [] end.

(** [error instanceof Error ? error.message : otherwise] *)
Definition error_message (e : thrown) (otherwise : jstring) : jstring :=
  match e with
  | ErrorObject _ msg => msg
  | NotAnError => otherwise
  end.

(** The object literal [{ error: e, message: m }]. *)
Definition error_object (e m : json) : json :=
  JObject [(js "error", e); (js "message", m)].

Definition json_headers : list (jstring * jstring) :=
  [(js "Content-Type", js "application/json")].

(** [response.ok] *)
Definition ok (r : Response) : bool := (200 <=? status r) && (status r <=? 299).

(** [response.json()] *)
Definition response_json (r : Response) : completion json :=
  t <- text r ;; JSON_parse t.

(** [s.split(sep)] for a one-character separator. *)
Fixpoint split (sep : N) (s : jstring) : list jstring :=
  match s with
  | [] => [[]]
  | c :: s' =>
      let r := split sep s' in
      if c =? sep then [] :: r
      else match r with
           | h :: t => (c :: h) :: t
           | [] => [[c]]
           end
  end.

(** [v === s] for a string literal [s]. *)
Definition strict_eq_string (v : option json) (s : jstring) : bool :=
  match v with
  | Some (JString t) => jstring_eqb t s
  | _ => false
  end.

(** [v.k = x] on a parsed value: only an object takes the member. *)
Definition set_property (v : json) (k : jstring) (x : json) : json :=
  match v with
  | JObject m => JObject (obj_set m k x)
  | _ => v
  end.

(** The discriminant of the result union, as the page tests it:
    [(scanResult as IdentificationError).error] is truthy. *)
Definition is_error (v : json) : bool :=
  match v with
  | JObject m => truthy (obj_get m (js "error"))
  | _ => false
  end.

(** [fileToBase64]: the part of the data URL between its first and its
    second comma; rejects with an [Error] when that part is missing or
    empty, and with the reader's event when the read fails. *)
Definition fileToBase64 (file : File) : completion jstring :=
  match content file with
  | Loaded result =>
      let base64String := nth_error (split 0x2C result) 1 in
      if opt_truthy base64String then Normal (the_string base64String)
      else Throw (new_Error (js "Failed to read base64 string from file."))
  | ReadError => Throw NotAnError
  end.

(** [imageFile.type || 'image/jpeg'] *)
Definition mime_type_of (imageFile : File) : jstring :=
  if string_truthy (type imageFile) then type imageFile else js "image/jpeg".

End Services.

(* ================================================================== *)
(** * [netlify/functions/identify.ts], English variant *)

Module Identify.
Section Handler.
Context {E : Engine}.

(** The first [try] block: the request body, parsed and checked. *)
Definition parse_request (event : HandlerEvent) : completion json :=
  if negb (opt_truthy (event_body event)) then
    Throw (new_Error (js "Request body is empty."))
  else
    body <- JSON_parse (the_string (event_body event)) ;;
    imageData <- get_property body (js "imageData") ;;
    if negb (truthy imageData) then
      Throw (new_Error (js "Missing imageData or mimeType in request body."))
    else
      mimeType <- get_property body (js "mimeType") ;;
      if negb (truthy mimeType) then
        Throw (new_Error (js "Missing imageData or mimeType in request body."))
      else Normal body.

(** The second [try]/[catch]: the call of the model and the reading of
    its answer. *)
Definition identify (body : json) (API_KEY : jstring) (generateContent : GenerateContent)
  : completion HandlerResponse :=
  try_catch
    (mimeType <- get_property body (js "mimeType") ;;
     data <- get_property body (js "imageData") ;;
     response <- generateContent API_KEY mimeType data ;;
     match response with
     | Some responseText =>
         parsedData <- JSON_parse (extractJson responseText) ;;
         Normal {| statusCode := 200;
                   body := JSON_stringify parsedData;
                   headers := json_headers |}
     | None =>
         Throw (new_Error
                  (js "Invalid response format from AI: Text content is not a string."))
     end)
    (fun error =>
       Normal {| statusCode := 500;
                 body := JSON_stringify
                           (error_object (JString (js "AI Service Error"))
                              (JString (error_message error
                                 (js "An unexpected error occurred during identification with the AI model."))));
                 headers := json_headers |}).

Definition handler (event : HandlerEvent) (API_KEY : option jstring)
    (generateContent : GenerateContent) : completion HandlerResponse :=
  if negb (jstring_eqb (httpMethod event) (js "POST")) then
    Normal {| statusCode := 405;
              body := JSON_stringify
                        (error_object (JString (js "Method Not Allowed"))
                                      (JString (js "Only POST requests are accepted.")));
              headers := json_headers |}
  else if negb (opt_truthy API_KEY) then
    Normal {| statusCode := 500;
              body := JSON_stringify
                        (error_object (JString (js "Configuration Error"))
                                      (JString (js "API Key is not configured on the server.")));
              headers := json_headers |}
  else
    match parse_request event with
    | Throw error =>
        Normal {| statusCode := 400;
                  body := JSON_stringify
                            (error_object (JString (js "Bad Request"))
                               (JString (error_message error (js "Invalid request body."))));
                  headers := json_headers |}
    | Normal body => identify body (the_string API_KEY) generateContent
    end.

End Handler.
End Identify.

(* ================================================================== *)
(** * [netlify/functions/identify.ts], Lao variant *)

Module IdentifyLo.

(** [RequestBody] *)
Record RequestBody := {
  imageData : jstring;
  mimeType : jstring
}.

Section Handler.
Context {E : Engine}.

(** The first [try] block: both fields must be strings. *)
Definition parse_request (event : HandlerEvent) : completion RequestBody :=
  if negb (opt_truthy (event_body event)) then
    Throw (new_Error (js "ເນື້ອໃນການຮ້ອງຂໍຫວ່າງເປົ່າ."))
  else
    parsedBody <- JSON_parse (the_string (event_body event)) ;;
    imageData <- get_property parsedBody (js "imageData") ;;
    match imageData with
    | Some (JString imageData) =>
        mimeType <- get_property parsedBody (js "mimeType") ;;
        match mimeType with
        | Some (JString mimeType) =>
            Normal {| imageData := imageData; mimeType := mimeType |}
        | _ => Throw (new_Error (js "imageData ຫຼື mimeType ຂາດຫາຍໄປ ຫຼື ບໍ່ຖືກຕ້ອງໃນເນື້ອໃນການຮ້ອງຂໍ."))
        end
    | _ => Throw (new_Error (js "imageData ຫຼື mimeType ຂາດຫາຍໄປ ຫຼື ບໍ່ຖືກຕ້ອງໃນເນື້ອໃນການຮ້ອງຂໍ."))
    end.

Definition identify (body : RequestBody) (API_KEY : jstring)
    (generateContent : GenerateContent) : completion HandlerResponse :=
  try_catch
    (response <- generateContent API_KEY
                   (Some (JString (mimeType body))) (Some (JString (imageData body))) ;;
     match response with
     | Some responseText =>
         parsedData <- JSON_parse (extractJson responseText) ;;
         Normal {| statusCode := 200;
                   body := JSON_stringify parsedData;
                   headers := json_headers |}
     | None =>
         Throw (new_Error
                  (js "Invalid response format from AI: Text content is not a string."))
     end)
    (fun error =>
       Normal {| statusCode := 500;
                 body := JSON_stringify
                           (error_object (JString (js "ຂໍ້ຜິດພາດຈາກບໍລິການ AI"))
                              (JString (error_message error (js "ເກີດຂໍ້ຜິດພາດທີ່ບໍ່ຄາດຄິດໃນລະຫວ່າງການກວດສອບດ້ວຍແບບຈຳລອງ AI."))));
                 headers := json_headers |}).

Definition handler (event : HandlerEvent) (API_KEY : option jstring)
    (generateContent : GenerateContent) : completion HandlerResponse :=
  if negb (jstring_eqb (httpMethod event) (js "POST")) then
    Normal {| statusCode := 405;
              body := JSON_stringify
                        (error_object (JString (js "ວິທີການບໍ່ໄດ້ຮັບອະນຸຍາດ"))
                                      (JString (js "ຮັບສະເພາະການຮ້ອງຂໍແບບ POST ເທົ່ານັ້ນ.")));
              headers := json_headers |}
  else if negb (opt_truthy API_KEY) then
    Normal {| statusCode := 500;
              body := JSON_stringify
                        (error_object (JString (js "ຂໍ້ຜິດພາດການຕັ້ງຄ່າ"))
                                      (JString (js "API Key ບໍ່ໄດ້ຖືກຕັ້ງຄ່າເທິງເຊີບເວີ.")));
              headers := json_headers |}
  else
    match parse_request event with
    | Throw error =>
        Normal {| statusCode := 400;
                  body := JSON_stringify
                            (error_object (JString (js "ການຮ້ອງຂໍບໍ່ຖືກຕ້ອງ"))
                               (JString (error_message error (js "ເນື້ອໃນການຮ້ອງຂໍບໍ່ຖືກຕ້ອງ."))));
                  headers := json_headers |}
    | Normal body => identify body (the_string API_KEY) generateContent
    end.

End Handler.
End IdentifyLo.

(* ================================================================== *)
(** * [services/geminiService.ts], proxied variant (English) *)

Module ProxiedService.
Section Client.
Context {E : Engine}.

(** The template literal with the response status. *)
Definition request_failed (r : Response) : jstring :=
  js "Request failed with status " ++ decimal (status r).

Definition endpoint : jstring := js "/.netlify/functions/identify".

(** The options of the [fetch] call. *)
Definition request (imageFile : File) (base64ImageData : jstring) : RequestInit :=
  {| init_method := js "POST";
     init_headers := json_headers;
     init_body :=
       JSON_stringify
         (JObject [(js "imageData", JString base64ImageData);
                   (js "mimeType", JString (mime_type_of imageFile))]) |}.

Definition unexpected : jstring :=
  js "An unexpected error occurred while communicating with the identification service.".

Definition identifyImage (imageFile : File) (fetch : Fetch) : completion json :=
  try_catch
    (base64ImageData <- fileToBase64 imageFile ;;
     response <- fetch endpoint (request imageFile base64ImageData) ;;
     if negb (ok response) then
       errorData <-
         try_catch (response_json response)
           (fun _ => Normal (error_object (JString (js "Network Error"))
                                          (JString (request_failed response)))) ;;
       error <- get_property errorData (js "error") ;;
       message <- get_property errorData (js "message") ;;
       Normal (error_object (js_or error (JString (js "API Error")))
                            (js_or message (JString (request_failed response))))
     else
       result <- response_json response ;;
       Normal result)
    (fun error =>
       Normal (error_object (JString (js "Client-Side Error"))
                            (JString (error_message error unexpected)))).

End Client.
End ProxiedService.

(* ================================================================== *)
(** * [services/geminiService.ts], direct variant *)

Module DirectService.
Section Client.
Context {E : Engine}.

Definition canonical_fallback : jstring :=
  js "The image may not contain a recognizable plant or fruit, or the quality is too low.".

Definition localized_fallback : jstring :=
  js "ຮູບພາບອາດຈະບໍ່ມີພືດ ຫຼື ໝາກໄມ້ທີ່ສາມາດກວດສອບໄດ້, ຫຼື ຄຸນນະພາບຂອງຮູບຕ່ຳເກີນໄປ.".

(** The head of the message of the catch-all error. *)
Definition api_error_prefix : jstring :=
  js "ເກີດຂໍ້ຜິດພາດໃນການເຊື່ອມຕໍ່ API: ".

Definition identifyImage (imageFile : File) (API_KEY : option jstring)
    (generateContent : GenerateContent) : completion json :=
  if negb (opt_truthy API_KEY) then
    Normal (error_object (JString (js "Configuration Error"))
                         (JString (js "ລະຫັດ API ບໍ່ໄດ້ຖືກຕັ້ງຄ່າ.")))
  else
    try_catch
      (base64ImageData <- fileToBase64 imageFile ;;
       response <-
         generateContent (the_string API_KEY)
           (Some (JString (mime_type_of imageFile))) (Some (JString base64ImageData)) ;;
       responseText <-
         match response with
         | Some t => Normal t
         | None => Throw (ErrorObject (js "TypeError") (TypeErrorMessage (js "trim")))
         end ;;
       parsedData <- JSON_parse (extractJson responseText) ;;
       error <- get_property parsedData (js "error") ;;
       if truthy error then
         message <- get_property parsedData (js "message") ;;
         if strict_eq_string message canonical_fallback then
           Normal (set_property parsedData (js "message") (JString localized_fallback))
         else Normal parsedData
       else Normal parsedData)
      (fun error =>
         Normal (error_object (JString (js "API Error"))
                   (JString (api_error_prefix
                             ++ error_message error
                                  (js "An unexpected error occurred during identification."))))).

End Client.
End DirectService.

(* ================================================================== *)
(** * [services/geminiService.ts], proxied variant (Lao) *)

Module ProxiedServiceLo.
Section Client.
Context {E : Engine}.

(** [fileToBase64] of this variant: as the English one, with its own
    message. *)
Definition fileToBase64 (file : File) : completion jstring :=
  match content file with
  | Loaded result =>
      let base64String := nth_error (split 0x2C result) 1 in
      if opt_truthy base64String then Normal (the_string base64String)
      else Throw (new_Error (js "ບໍ່ສາມາດອ່ານສະຕຣິງ base64 ຈາກໄຟລ໌ໄດ້."))
  | ReadError => Throw NotAnError
  end.

Definition request_failed (r : Response) : jstring :=
  js "ການຮ້ອງຂໍລົ້ມເຫລວດ້ວຍສະຖານະ " ++ decimal (status r).

Definition unexpected : jstring :=
  js "ເກີດຂໍ້ຜິດພາດທີ່ບໍ່ຄາດຄິດໃນຂະນະສື່ສານກັບບໍລິການກວດສອບ.".

Definition identifyImage (imageFile : File) (fetch : Fetch) : completion json :=
  try_catch
    (base64ImageData <- fileToBase64 imageFile ;;
     response <- fetch ProxiedService.endpoint
                   (ProxiedService.request imageFile base64ImageData) ;;
     if negb (ok response) then
       errorData <-
         try_catch (response_json response)
           (fun _ => Normal (error_object (JString (js "ຂໍ້ຜິດພາດເຄືອຂ່າຍ"))
                                          (JString (request_failed response)))) ;;
       error <- get_property errorData (js "error") ;;
       message <- get_property errorData (js "message") ;;
       Normal (error_object (js_or error (JString (js "ຂໍ້ຜິດພາດ API")))
                            (js_or message (JString (request_failed response))))
     else
       result <- response_json response ;;
       Normal result)
    (fun error =>
       Normal (error_object (JString (js "ຂໍ້ຜິດພາດຝັ່ງລູກຄ້າ"))
                            (JString (error_message error unexpected)))).

End Client.
End ProxiedServiceLo.

(* ================================================================== *)
(** * [App.tsx]: the state of the page and its handlers

    The page keeps four state variables.  A handler runs to its end
    before the next one starts (the inputs and the button are disabled
    while [isLoading]), so a handler is a function from state to state.
    Object URLs are handles of the browser's URL store: [createObjectURL]
    gives a fresh one, [revokeObjectURL] releases it. *)

Module App.

Record UrlStore := {
  live : list nat;      (* the object URLs not yet revoked *)
  next : nat            (* the next fresh handle *)
}.

Definition createObjectURL (b : UrlStore) : nat * UrlStore :=
  (next b, {| live := next b :: live b; next := S (next b) |}).

Definition revokeObjectURL (u : nat) (b : UrlStore) : UrlStore :=
  {| live := List.remove Nat.eq_dec u (live b); next := next b |}.

Section Page.
Context {E : Engine}.

Record State := {
  selectedFile : option File;
  previewUrl : option nat;
  isLoading : bool;
  scanResult : option json
}.

(** The state of the first render. *)
Definition initial : State :=
  {| selectedFile := None; previewUrl := None; isLoading := false; scanResult := None |}.

(** The cleanup of the effect on [previewUrl]: it revokes the URL of the
    render that set the effect up. *)
Definition cleanup (previewUrl : option nat) (b : UrlStore) : UrlStore :=
  match previewUrl with
  | Some u => revokeObjectURL u b
  | None => b
  end.

(** [handleImageSelected], followed by the re-render it causes: the
    effect of the previous render is cleaned up because [previewUrl] has
    changed. *)
Definition handleImageSelected (file : File) (st : State) (b : UrlStore)
  : State * UrlStore :=
  let b1 := match previewUrl st with
            | Some u => revokeObjectURL u b
            | None => b
            end in
  let (u, b2) := createObjectURL b1 in
  ({| selectedFile := Some file; previewUrl := Some u;
      isLoading := isLoading st; scanResult := None |},
   cleanup (previewUrl st) b2).

(** [handleScanImage], given the client's [identifyImage]. *)
Definition handleScanImage (identifyImage : File -> completion json) (st : State) : State :=
  match selectedFile st with
  | None => st
  | Some file =>
      (* setIsLoading(true); setScanResult(null); try ... catch ... finally *)
      let result :=
        match identifyImage file with
        | Normal result => result
        | Throw _ =>
            error_object (JString (js "Client Error"))
                         (JString (js "An error occurred before contacting the AI."))
        end in
      {| selectedFile := selectedFile st; previewUrl := previewUrl st;
         isLoading := false;
         (* a result that is null leaves the slot empty *)
         scanResult := match result with JNull => None | _ => Some result end |}
  end.

(** What the user does: choose a file, or press the scan button. *)
Inductive action :=
| Select (file : File)
| Scan.

Definition act (identifyImage : File -> completion json) (a : action)
    (sb : State * UrlStore) : State * UrlStore :=
  match a with
  | Select file => handleImageSelected file (fst sb) (snd sb)
  | Scan => (handleScanImage identifyImage (fst sb), snd sb)
  end.

Definition run (identifyImage : File -> completion json) (actions : list action)
  : State * UrlStore :=
  fold_left (fun sb a => act identifyImage a sb) actions
            (initial, {| live := []; next := 0 |}).

(** The page is removed: the last effect is cleaned up. *)
Definition unmount (sb : State * UrlStore) : UrlStore :=
  cleanup (previewUrl (fst sb)) (snd sb).

End Page.
End App.

(* ================================================================== *)
(** * A reference engine and notation for examples *)

(** A Number kept as its literal: enough to run the services on
    concrete texts. *)
Definition literal_nonzero (lit : jstring) : bool :=
  let mantissa := fst (span (fun c => negb ((c =? 0x65) || (c =? 0x45))) lit) in
  existsb (fun c => (0x31 <=? c) && (c <=? 0x39)) mantissa.

Definition LiteralEngine : Engine := {|
  number := jstring;
  StringToNumber := fun lit => lit;
  NumberToBoolean := literal_nonzero;
  NumberToJSON := fun lit => lit;
  SyntaxErrorMessage := fun text => js "Unexpected token in JSON: " ++ text;
  TypeErrorMessage := fun k => js "Cannot read properties of null (reading '" ++ k ++ js "')"
|}.

(** A text written with apostrophes for its double quotes. *)
Definition jsq (s : string) : jstring :=
  map (fun c => if c =? 0x27 then 0x22 else c) (js s).

(* ================================================================== *)
(** * Specification vocabulary *)

(** Three backticks. *)
Definition fence : jstring := [backtick; backtick; backtick].

(** A complete fenced block: an opening fence with a language tag, a line
    feed, the body, an optional line feed, the closing fence. *)
Definition fenced (tag body nl : jstring) : jstring :=
  fence ++ tag ++ 0xA :: (body ++ nl) ++ fence.

(** The continuation that accepts. *)
Definition final : cont := fun _ _ cs => Some cs.

(** The parts of [fenceRegex], from its end. *)
Definition lit3 : regex :=
  RSeq (RChar backtick) (RSeq (RChar backtick) (RSeq (RChar backtick) REol)).
Definition closing : regex :=
  RSeq (ROpt (RChar 0xA)) (RSeq (RStar true is_white_space) lit3).
Definition body_close : regex :=
  RSeq (RGroup 2 (RStar false any_char)) closing.
Definition after_tag : regex :=
  RSeq (RStar true is_white_space) (RSeq (ROpt (RChar 0xA)) body_close).
Definition after_open : regex :=
  RSeq (ROpt (RGroup 1 (RStar true is_word_char))) after_tag.

(** [s] is white space followed by the closing fence. *)
Definition closes (s : jstring) : bool :=
  jstring_eqb (drop_while is_white_space s) fence.

(** The shortest prefix of [s] after which the closing part matches:
    what the lazy second group captures. *)
Fixpoint body_of (s : jstring) : option jstring :=
  match s with
  | [] => None
  | c :: s' => if closes s then Some [] else option_map (cons c) (body_of s')
  end.



(** A model that answers [responseText] whatever the request. *)
Definition answers {E : Engine} (responseText : jstring) : GenerateContent :=
  fun _ _ _ => Normal (Some responseText).

(** Sample inputs: a well-formed request, a readable PNG file, a key. *)
Definition sample_event : HandlerEvent :=
  {| httpMethod := js "POST";
     event_body := Some (jsq "{'imageData':'AAAA','mimeType':'image/png'}") |}.

Definition sample_file : File :=
  {| type := js "image/png"; content := Loaded (js "data:image/png;base64,AAAA") |}.

Definition sample_key : option jstring := Some (js "key").

(** The second [try] block of either handler answers 200 or 500. *)
Definition answer_200_or_500 {E : Engine} (r : completion HandlerResponse)
    (code : jstring) : Prop :=
  (exists parsedData,
      r = Normal {| statusCode := 200; body := JSON_stringify parsedData;
                    headers := json_headers |})
  \/ (exists message,
         r = Normal {| statusCode := 500;
                       body := JSON_stringify
                                 (error_object (JString code) (JString message));
                       headers := json_headers |}).

(** A response as the handler promises it: one of the four statuses, the
    JSON content type, a body made by [JSON.stringify], and on every
    status but 200 an error object with a non-empty error code. *)
Definition well_formed_response {E : Engine} (r : completion HandlerResponse) : Prop :=
  exists response,
    r = Normal response
    /\ (statusCode response = 200 \/ statusCode response = 400
        \/ statusCode response = 405 \/ statusCode response = 500)
    /\ headers response = [(js "Content-Type", js "application/json")]
    /\ (exists v, body response = JSON_stringify v)
    /\ (statusCode response <> 200 ->
        exists code message,
          body response = JSON_stringify (error_object (JString code) (JString message))
          /\ code <> []).

(** A request whose [imageData] is the boolean [true]. *)
Definition untyped_event : HandlerEvent :=
  {| httpMethod := js "POST";
     event_body := Some (jsq "{'imageData':true,'mimeType':'image/png'}") |}.

(** A file whose data URL has nothing after the comma. *)
Definition empty_file : File :=
  {| type := js "image/png"; content := Loaded (js "data:image/png;base64,") |}.

(** The body of the sample 200 response, and the object it denotes. *)
Definition mango_text : jstring :=
  jsq "{'name':'Mango','description':'A tropical fruit.'}".

Definition mango {E : Engine} : json :=
  JObject [(js "name", JString (js "Mango"));
           (js "description", JString (js "A tropical fruit."))].

(** ** The fence stripping as an explicit parser *)

(** The text between an opening and a closing fence: [t] without its
    first three and last three characters, when both are three backticks
    and do not overlap. *)
Definition unfence (t : jstring) : option jstring :=
  if starts_with fence t then
    let r := rev (skipn 3 t) in
    if starts_with fence r then Some (rev (skipn 3 r)) else None
  else None.

(** What lines 243-248 compute, without a regular expression: between
    the fences, drop the run of word characters (the language tag), trim
    the rest, and keep it unless it is empty. *)
Definition strip_fence (responseText : jstring) : jstring :=
  let jsonStr := trim responseText in
  match unfence jsonStr with
  | Some inner =>
      let body := trim (drop_while is_word_char inner) in
      if string_truthy body then body else jsonStr
  | None => jsonStr
  end.

(** The URL store holds exactly the URL on display, and handles not yet
    given out are not in it. *)
Definition store_matches {E : Engine} (sb : App.State * App.UrlStore) : Prop :=
  App.live (snd sb) = match App.previewUrl (fst sb) with Some u => [u] | None => [] end
  /\ (forall u, In u (App.live (snd sb)) -> u < App.next (snd sb))%nat
  /\ App.isLoading (fst sb) = false.

(** ** The platform between [fetch] and the function

    Netlify hands the function the method and the body of the HTTP
    request, and answers with the status and the body the function
    returns. *)
Definition event_of_request (init : RequestInit) : HandlerEvent :=
  {| httpMethod := init_method init; event_body := Some (init_body init) |}.

Definition response_of (r : HandlerResponse) : Response :=
  {| status := statusCode r; text := Normal (body r) |}.

(** [fetch], when the endpoint is served by [handler]. *)
Definition served_by (handler : HandlerEvent -> completion HandlerResponse) : Fetch :=
  fun _ init => r <- handler (event_of_request init) ;; Normal (response_of r).

(** [message || `Request failed with status ${status}`] *)
Definition message_or_status (message : jstring) (status : N) : jstring :=
  if string_truthy message then message
  else js "Request failed with status " ++ decimal status.

(* ================================================================== *)
(** * Strings: lemmas *)

Lemma jstring_eqb_eq (a b : jstring) : jstring_eqb a b = true <-> a = b.
Proof.
  revert b; induction a as [|x a IH]; intros [|y b]; simpl; split; intros H;
    try reflexivity; try discriminate.
  - apply andb_true_iff in H as [H1 H2].
    apply N.eqb_eq in H1. apply IH in H2. congruence.
  - injection H as -> ->. rewrite N.eqb_refl. simpl. now apply IH.
Qed.

Lemma jstring_eqb_refl (a : jstring) : jstring_eqb a a = true.
Proof. now apply jstring_eqb_eq. Qed.

Lemma jstring_eqb_neq (a b : jstring) : jstring_eqb a b = false <-> a <> b.
Proof.
  split.
  - intros H ->. rewrite jstring_eqb_refl in H. discriminate.
  - intros H. destruct (jstring_eqb a b) eqn:Heq; [|reflexivity].
    apply jstring_eqb_eq in Heq. contradiction.
Qed.

Lemma drop_while_all (p : N -> bool) (s : jstring) :
  forallb p s = true -> drop_while p s = [].
Proof.
  induction s as [|c s IH]; simpl; [reflexivity|].
  intros H. apply andb_true_iff in H as [-> H]. auto.
Qed.

Lemma drop_while_idem (p : N -> bool) (s : jstring) :
  drop_while p (drop_while p s) = drop_while p s.
Proof.
  induction s as [|c s IH]; simpl; [reflexivity|].
  destruct (p c) eqn:Hc; [exact IH|]. simpl. now rewrite Hc.
Qed.

Lemma drop_while_app (p : N -> bool) (a b : jstring) :
  drop_while p (a ++ b) = if forallb p a then drop_while p b else drop_while p a ++ b.
Proof.
  induction a as [|c a IH]; simpl; [reflexivity|].
  destruct (p c); simpl; [exact IH | reflexivity].
Qed.

(** What is left after dropping starts with a character outside [p]. *)
Lemma drop_while_head (p : N -> bool) (s : jstring) (c : N) (r : jstring) :
  drop_while p s = c :: r -> p c = false.
Proof.
  induction s as [|d s IH]; simpl; [discriminate|].
  destruct (p d) eqn:Hd; [exact IH|]. intros H. injection H as -> _. exact Hd.
Qed.

Lemma forallb_rev (p : N -> bool) (s : jstring) : forallb p (rev s) = forallb p s.
Proof.
  induction s as [|c s IH]; simpl; [reflexivity|].
  rewrite forallb_app, IH. simpl. rewrite andb_true_r. apply andb_comm.
Qed.

Lemma trim_end_cons (c : N) (x : jstring) :
  trim_end (c :: x) =
  if forallb is_white_space (c :: x) then [] else c :: trim_end x.
Proof.
  unfold trim_end. simpl rev. rewrite drop_while_app, forallb_rev. simpl forallb.
  destruct (forallb is_white_space x) eqn:Hx.
  - rewrite andb_true_r. simpl. destruct (is_white_space c); simpl; [reflexivity|].
    rewrite (drop_while_all _ (rev x)); [reflexivity|]. now rewrite forallb_rev.
  - rewrite andb_false_r. rewrite rev_app_distr. reflexivity.
Qed.

Lemma trim_end_idem (x : jstring) : trim_end (trim_end x) = trim_end x.
Proof. unfold trim_end. now rewrite rev_involutive, drop_while_idem. Qed.

Lemma trim_end_snoc_ws (x : jstring) (c : N) :
  is_white_space c = true -> trim_end (x ++ [c]) = trim_end x.
Proof. intros H. unfold trim_end. rewrite rev_app_distr. simpl. now rewrite H. Qed.

Lemma trim_idem (x : jstring) : trim (trim x) = trim x.
Proof.
  unfold trim, trim_start.
  destruct (drop_while is_white_space x) as [|c y] eqn:Hy; [reflexivity|].
  pose proof (drop_while_head _ _ _ _ Hy) as Hc.
  assert (E1 : trim_end (c :: y) = c :: trim_end y).
  { rewrite trim_end_cons. simpl forallb. now rewrite Hc. }
  rewrite E1. simpl drop_while. rewrite Hc.
  rewrite trim_end_cons. simpl forallb. rewrite Hc. simpl.
  now rewrite trim_end_idem.
Qed.

Lemma trim_snoc_lf (x nl : jstring) :
  nl = [] \/ nl = [0xA] -> trim (x ++ nl) = trim x.
Proof.
  intros [-> | ->]; [now rewrite app_nil_r|].
  unfold trim, trim_start. rewrite drop_while_app.
  destruct (forallb is_white_space x) eqn:Hx.
  - now rewrite (drop_while_all _ x Hx).
  - apply trim_end_snoc_ws. reflexivity.
Qed.

Lemma trim_end_snoc_other (s : jstring) (c : N) :
  is_white_space c = false -> trim_end (s ++ [c]) = s ++ [c].
Proof.
  intros H. unfold trim_end. rewrite rev_app_distr. simpl. rewrite H. simpl.
  now rewrite rev_involutive.
Qed.

(** A fenced block starts and ends with a backtick: it is its own
    trimmed form. *)
Lemma trim_fenced (tag body nl : jstring) : trim (fenced tag body nl) = fenced tag body nl.
Proof.
  assert (H : fenced tag body nl
              = (fence ++ tag ++ 0xA :: (body ++ nl) ++ [backtick; backtick]) ++ [backtick]).
  { unfold fenced, fence. simpl. rewrite <- !app_assoc. simpl.
    do 3 f_equal. rewrite <- !app_assoc. reflexivity. }
  unfold trim, trim_start. unfold fenced at 1, fence at 1.
  cbn [app drop_while]. change (is_white_space backtick) with false. cbv iota.
  change (backtick :: backtick :: backtick :: tag ++ 0xA :: (body ++ nl) ++ fence)
    with (fenced tag body nl).
  rewrite H. now apply trim_end_snoc_other.
Qed.

(* ================================================================== *)
(** * The fence pattern: lemmas *)

Lemma fenceRegex_parts :
  fenceRegex
  = RSeq RBol (RSeq (RChar backtick) (RSeq (RChar backtick) (RSeq (RChar backtick) after_open))).
Proof. reflexivity. Qed.

Lemma white_space_not_backtick (c : N) : is_white_space c = true -> (c =? backtick) = false.
Proof.
  intros H. destruct (N.eqb_spec c backtick) as [->|]; [|reflexivity].
  vm_compute in H. discriminate.
Qed.

Lemma jstring_eqb_length (a b : jstring) : jstring_eqb a b = true -> length a = length b.
Proof. intros H. apply jstring_eqb_eq in H. now subst. Qed.

(** The three backticks and the end of input. *)
Lemma lit3_spec (pos : nat) (s : jstring) (cs : captures) :
  rmatch lit3 pos s cs final = if jstring_eqb s fence then Some cs else None.
Proof.
  unfold lit3, fence.
  destruct s as [|a [|b [|c [|d s]]]]; cbn [rmatch jstring_eqb];
    rewrite ?(N.eqb_sym backtick);
    repeat match goal with
           | |- context [?x =? backtick] => destruct (x =? backtick); cbn [andb]
           end; reflexivity.
Qed.

Lemma closes_ws (c : N) (s : jstring) :
  is_white_space c = true -> closes (c :: s) = closes s.
Proof. intros H. unfold closes. simpl. now rewrite H. Qed.

Lemma ws_star_lit3 (s : jstring) (pos : nat) (cs : captures) :
  star_greedy is_white_space pos s cs (fun p s' c' => rmatch lit3 p s' c' final)
  = if closes s then Some cs else None.
Proof.
  revert pos. induction s as [|c s IH]; intros pos.
  - cbn [star_greedy]. now rewrite lit3_spec.
  - cbn [star_greedy]. destruct (is_white_space c) eqn:Hc.
    + rewrite IH, (closes_ws c s Hc). destruct (closes s); [reflexivity|].
      rewrite lit3_spec. cbn [jstring_eqb fence].
      now rewrite (white_space_not_backtick c Hc).
    + rewrite lit3_spec. unfold closes. simpl. now rewrite Hc.
Qed.

Lemma closing_spec (pos : nat) (s : jstring) (cs : captures) :
  rmatch closing pos s cs final = if closes s then Some cs else None.
Proof.
  unfold closing. cbn [rmatch].
  destruct s as [|c s].
  - apply ws_star_lit3.
  - destruct (N.eqb_spec 0xA c) as [<-|Hc].
    + replace (Nat.eqb (S pos) pos) with false
        by (symmetry; apply Nat.eqb_neq; lia).
      rewrite !ws_star_lit3. rewrite (closes_ws 0xA s) by reflexivity.
      now destruct (closes s).
    + apply ws_star_lit3.
Qed.

Lemma closes_app_fence (y : jstring) : closes (y ++ fence) = forallb is_white_space y.
Proof.
  induction y as [|c y IH]; [reflexivity|].
  simpl forallb. destruct (is_white_space c) eqn:Hc.
  - simpl app. now rewrite closes_ws.
  - unfold closes. simpl. rewrite Hc.
    apply jstring_eqb_neq. intros H. apply (f_equal (@length N)) in H.
    simpl in H. rewrite length_app in H. simpl in H. lia.
Qed.

Lemma body_of_fence (x : jstring) : body_of (x ++ fence) = Some (trim_end x).
Proof.
  induction x as [|c x IH]; [reflexivity|].
  change ((c :: x) ++ fence) with (c :: (x ++ fence)). cbn [body_of].
  change (c :: (x ++ fence)) with ((c :: x) ++ fence).
  rewrite closes_app_fence, IH, trim_end_cons.
  now destruct (forallb is_white_space (c :: x)).
Qed.

(** The lazy second group stops at the first place where the closing
    part matches. *)
Lemma lazy_body (s pre : jstring) (p0 p : nat) (cs : captures) :
  p = (p0 + length pre)%nat ->
  star_lazy any_char p s cs
    (fun pos' s' cs' =>
       rmatch closing pos' s' ((2%nat, firstn (pos' - p0) (pre ++ s)) :: cs') final)
  = option_map (fun b => (2%nat, pre ++ b) :: cs) (body_of s).
Proof.
  revert pre p. induction s as [|c s IH]; intros pre p ->.
  - cbn [star_lazy]. rewrite closing_spec. reflexivity.
  - cbn [star_lazy body_of]. rewrite closing_spec.
    replace (p0 + length pre - p0)%nat with (length pre) by lia.
    rewrite firstn_app, firstn_all, Nat.sub_diag. simpl firstn.
    destruct (closes (c :: s)); [reflexivity|].
    cbn [any_char].
    specialize (IH (pre ++ [c]) (S (p0 + length pre))).
    rewrite <- app_assoc in IH. change ([c] ++ s) with (c :: s) in IH. rewrite IH.
    + destruct (body_of s); simpl; [|reflexivity].
      now rewrite <- app_assoc.
    + rewrite length_app. simpl. lia.
Qed.

Lemma body_close_spec (x : jstring) (pos : nat) (cs : captures) :
  rmatch body_close pos (x ++ fence) cs final = Some ((2%nat, trim_end x) :: cs).
Proof.
  unfold body_close. cbn [rmatch].
  pose proof (lazy_body (x ++ fence) [] pos pos cs) as H.
  cbn [app length] in H. rewrite H by lia.
  now rewrite body_of_fence.
Qed.

(** A greedy star first tries the whole run. *)
Lemma star_greedy_drop (p : N -> bool) (s : jstring) (pos : nat) (cs : captures)
    (k : cont) (r : captures) :
  (forall pos', k pos' (drop_while p s) cs = Some r) ->
  star_greedy p pos s cs k = Some r.
Proof.
  revert pos. induction s as [|c s IH]; intros pos H; cbn [star_greedy].
  - apply H.
  - simpl in H. destruct (p c); [|apply H]. now rewrite IH.
Qed.

Lemma star_greedy_max (p : N -> bool) (w rest : jstring) (pos : nat) (cs : captures)
    (k : cont) (r : captures) :
  forallb p w = true ->
  match rest with [] => True | c :: _ => p c = false end ->
  k (pos + length w)%nat rest cs = Some r ->
  star_greedy p pos (w ++ rest) cs k = Some r.
Proof.
  revert pos. induction w as [|c w IH]; intros pos Hw Hrest Hk.
  - simpl in *. rewrite Nat.add_0_r in Hk.
    destruct rest as [|c rest]; cbn [star_greedy]; [exact Hk|]. now rewrite Hrest.
  - simpl in Hw. apply andb_true_iff in Hw as [Hc Hw].
    simpl app. cbn [star_greedy]. rewrite Hc.
    rewrite (IH (S pos) Hw Hrest); [reflexivity|].
    simpl in Hk. now rewrite Nat.add_succ_r in Hk.
Qed.

Lemma drop_while_app_stop (p : N -> bool) (a : jstring) (c : N) (b : jstring) :
  p c = false -> drop_while p (a ++ c :: b) = drop_while p a ++ c :: b.
Proof.
  intros Hc. induction a as [|d a IH]; simpl; [now rewrite Hc|].
  now destruct (p d).
Qed.

Lemma after_tag_spec (x : jstring) (pos : nat) (cs : captures) :
  rmatch after_tag pos (0xA :: x ++ fence) cs final = Some ((2%nat, trim x) :: cs).
Proof.
  unfold after_tag. cbn [rmatch].
  apply star_greedy_drop. intros pos'.
  assert (Hd : drop_while is_white_space (0xA :: x ++ fence) = trim_start x ++ fence).
  { change (drop_while is_white_space (0xA :: x ++ fence))
      with (drop_while is_white_space (x ++ fence)).
    unfold fence. now rewrite drop_while_app_stop by reflexivity. }
  rewrite Hd. clear Hd.
  destruct (trim_start x) as [|c y] eqn:Hy.
  - unfold trim. rewrite Hy. simpl app. cbn [rmatch fence].
    change (0xA =? backtick) with false. cbv iota.
    apply (body_close_spec []).
  - pose proof (drop_while_head _ _ _ _ Hy) as Hc.
    simpl app. cbn [rmatch].
    destruct (N.eqb_spec 0xA c) as [<-|_]; [discriminate Hc|].
    unfold trim. rewrite Hy. apply (body_close_spec (c :: y)).
Qed.

Lemma after_open_spec (tag x : jstring) (pos : nat) :
  forallb is_word_char tag = true ->
  rmatch after_open pos (tag ++ 0xA :: x ++ fence) [] final
  = Some ((2%nat, trim x) :: match tag with [] => [] | _ => [(1%nat, tag)] end).
Proof.
  intros Htag. unfold after_open. cbn [rmatch].
  destruct tag as [|t tag].
  - simpl app. cbn [star_greedy]. change (is_word_char 0xA) with false. cbv iota.
    rewrite Nat.eqb_refl. apply after_tag_spec.
  - rewrite (star_greedy_max is_word_char (t :: tag) (0xA :: x ++ fence) pos []
               _ ((2%nat, trim x) :: [(1%nat, t :: tag)]) Htag);
      [reflexivity | reflexivity |].
    replace (Nat.eqb (pos + length (t :: tag)) pos) with false
      by (symmetry; apply Nat.eqb_neq; simpl; lia).
    replace (pos + length (t :: tag) - pos)%nat with (length (t :: tag)) by lia.
    rewrite firstn_app, firstn_all, Nat.sub_diag. simpl firstn. rewrite app_nil_r.
    apply after_tag_spec.
Qed.

Lemma exec_from_first (r : regex) (pos : nat) (s : jstring) (cs : captures) :
  rmatch r pos s [] (fun _ _ cs => Some cs) = Some cs -> exec_from r pos s = Some cs.
Proof. intros H. destruct s; simpl; now rewrite H. Qed.

(** On a fenced block the pattern matches, and its second group is the
    trimmed text between the first line feed and the closing fence. *)
Lemma match_fenced (tag x : jstring) :
  forallb is_word_char tag = true ->
  String_match (fence ++ tag ++ 0xA :: x ++ fence) fenceRegex
  = Some ((2%nat, trim x) :: match tag with [] => [] | _ => [(1%nat, tag)] end).
Proof.
  intros Htag. unfold String_match. apply exec_from_first.
  rewrite fenceRegex_parts. unfold fence at 1. cbn [app rmatch Nat.eqb].
  rewrite N.eqb_refl. now apply after_open_spec.
Qed.

Lemma exec_from_later (s : jstring) (pos : nat) : exec_from fenceRegex (S pos) s = None.
Proof.
  revert pos. induction s as [|c s IH]; intros pos; rewrite fenceRegex_parts.
  - reflexivity.
  - cbn [exec_from rmatch Nat.eqb]. rewrite <- fenceRegex_parts. apply IH.
Qed.

(** A text that does not start with three backticks is not matched. *)
Lemma match_unfenced (s : jstring) :
  starts_with fence s = false -> String_match s fenceRegex = None.
Proof.
  intros H. unfold String_match, fence in *.
  destruct s as [|a [|b [|c s]]]; cbn [starts_with] in H;
    cbn [exec_from]; rewrite ?exec_from_later;
    rewrite fenceRegex_parts; cbn [rmatch Nat.eqb];
    repeat match goal with
           | |- context [backtick =? ?x] => destruct (backtick =? x)
           end;
    try reflexivity; discriminate H.
Qed.

Lemma extractJson_fenced (text tag body nl : jstring) :
  forallb is_word_char tag = true ->
  nl = [] \/ nl = [0xA] ->
  trim text = fenced tag body nl ->
  extractJson text = if string_truthy (trim body) then trim body else trim text.
Proof.
  intros Htag Hnl Htext. unfold extractJson. rewrite Htext. unfold fenced.
  rewrite (match_fenced tag (body ++ nl) Htag). cbn [capture Nat.eqb].
  rewrite (trim_snoc_lf body nl Hnl). now rewrite trim_idem.
Qed.

Lemma extractJson_unfenced (text : jstring) :
  starts_with fence (trim text) = false -> extractJson text = trim text.
Proof. intros H. unfold extractJson. now rewrite (match_unfenced _ H). Qed.

(* ================================================================== *)
(** * JSON texts and the handler: lemmas *)

(** No JSON text starts with a backtick. *)
Lemma json_text_not_fenced {E : Engine} (s : jstring) (v : json) :
  parse_json s = Some v -> starts_with fence s = false.
Proof.
  destruct s as [|c s]; [reflexivity|]. intros H.
  unfold fence. cbn [starts_with].
  destruct (N.eqb_spec backtick c) as [<-|]; [|reflexivity].
  unfold parse_json in H. cbn in H. discriminate H.
Qed.


(** After the three checks the handler is its second [try] block. *)
Lemma handler_accepted {E : Engine} (event : HandlerEvent) (API_KEY : option jstring)
    (generateContent : GenerateContent) (body : json) :
  httpMethod event = js "POST" -> opt_truthy API_KEY = true ->
  Identify.parse_request event = Normal body ->
  Identify.handler event API_KEY generateContent
  = Identify.identify body (the_string API_KEY) generateContent.
Proof.
  intros Hm Hk Hb. unfold Identify.handler.
  now rewrite Hm, jstring_eqb_refl, Hk, Hb.
Qed.



(** The two strings the proxied client tests with [||] are truthy. *)
Lemma js_or_truthy {E : Engine} (a : option json) (b : json) :
  truthy (Some b) = true -> truthy (Some (js_or a b)) = true.
Proof.
  intros Hb. unfold js_or. destruct a as [v|]; [|exact Hb].
  destruct (truthy (Some v)) eqn:Hv; [exact Hv | exact Hb].
Qed.

Lemma is_error_error_object {E : Engine} (e m : json) :
  is_error (error_object e m) = truthy (Some e).
Proof. reflexivity. Qed.

Lemma error_object_error {E : Engine} (e m : json) :
  get_property (error_object e m) (js "error") = Normal (Some e).
Proof. vm_compute. reflexivity. Qed.

Lemma error_object_message {E : Engine} (e m : json) :
  get_property (error_object e m) (js "message") = Normal (Some m).
Proof. vm_compute. reflexivity. Qed.

Lemma request_failed_truthy (r : Response) :
  string_truthy (ProxiedService.request_failed r) = true.
Proof. vm_compute. reflexivity. Qed.

(** What the proxied client answers once the file is encoded and
    [fetch] has returned a response. *)
Lemma proxied_answer {E : Engine} (imageFile : File) (fetch : Fetch) (base64 : jstring)
    (response : Response) :
  fileToBase64 imageFile = Normal base64 ->
  fetch ProxiedService.endpoint (ProxiedService.request imageFile base64) = Normal response ->
  ProxiedService.identifyImage imageFile fetch
  = if ok response then
      match response_json response with
      | Normal result => Normal result
      | Throw error =>
          Normal (error_object (JString (js "Client-Side Error"))
                    (JString (error_message error ProxiedService.unexpected)))
      end
    else
      match response_json response with
      | Normal JNull =>
          Normal (error_object (JString (js "Client-Side Error"))
                    (JString (TypeErrorMessage (js "error"))))
      | Normal (JObject m) =>
          Normal (error_object
                    (js_or (obj_get m (js "error")) (JString (js "API Error")))
                    (js_or (obj_get m (js "message"))
                           (JString (ProxiedService.request_failed response))))
      | Normal _ =>
          Normal (error_object (JString (js "API Error"))
                    (JString (ProxiedService.request_failed response)))
      | Throw _ =>
          Normal (error_object (JString (js "Network Error"))
                    (JString (ProxiedService.request_failed response)))
      end.
Proof.
  intros Hf Hr. unfold ProxiedService.identifyImage.
  rewrite Hf. cbn [bind]. rewrite Hr. cbn [bind].
  destruct (ok response); cbn [negb].
  - destruct (response_json response); cbn [bind try_catch]; reflexivity.
  - destruct (response_json response) as [[]|].
    1-6: cbn [bind try_catch get_property js_or error_message]; reflexivity.
    cbn [bind try_catch].
    rewrite error_object_error, error_object_message.
    cbn [bind try_catch js_or truthy]. rewrite request_failed_truthy.
    replace (string_truthy (js "Network Error")) with true by (vm_compute; reflexivity).
    reflexivity.
Qed.


Lemma obj_get_set_other {E : Engine} (m : list (jstring * json)) (k k' : jstring) (x : json) :
  k' <> k -> obj_get (obj_set m k x) k' = obj_get m k'.
Proof.
  intros Hne. apply jstring_eqb_neq in Hne.
  induction m as [|[k0 v0] m IH]; simpl.
  - now rewrite Hne.
  - destruct (jstring_eqb k k0) eqn:Hk; simpl.
    + apply jstring_eqb_eq in Hk. subst k0. now rewrite Hne.
    + now rewrite IH.
Qed.

Lemma model_call_answer {E : Engine} (call : completion (option jstring))
    (code otherwise : jstring) :
  answer_200_or_500
    (try_catch
       (response <- call ;;
        match response with
        | Some responseText =>
            parsedData <- JSON_parse (extractJson responseText) ;;
            Normal {| statusCode := 200; body := JSON_stringify parsedData;
                      headers := json_headers |}
        | None =>
            Throw (new_Error
                     (js "Invalid response format from AI: Text content is not a string."))
        end)
       (fun error =>
          Normal {| statusCode := 500;
                    body := JSON_stringify
                              (error_object (JString code)
                                 (JString (error_message error otherwise)));
                    headers := json_headers |}))
    code.
Proof.
  destruct call as [[t|]|e]; cbn [bind try_catch].
  - destruct (JSON_parse (extractJson t)) as [v|e]; cbn [bind].
    + left. now exists v.
    + right. eexists. reflexivity.
  - right. eexists. reflexivity.
  - right. eexists. reflexivity.
Qed.

Lemma identify_answers {E : Engine} (body : json) (key : jstring)
    (generateContent : GenerateContent) :
  answer_200_or_500 (Identify.identify body key generateContent) (js "AI Service Error").
Proof.
  unfold Identify.identify.
  destruct (get_property body (js "mimeType")) as [m|e] eqn:Hm; cbn [bind].
  - destruct (get_property body (js "imageData")) as [i|e] eqn:Hi; cbn [bind].
    + apply model_call_answer.
    + right. eexists. reflexivity.
  - right. eexists. reflexivity.
Qed.

Lemma identify_lo_answers {E : Engine} (body : IdentifyLo.RequestBody) (key : jstring)
    (generateContent : GenerateContent) :
  exists code, code <> []
    /\ answer_200_or_500 (IdentifyLo.identify body key generateContent) code.
Proof.
  eexists. split; [|unfold IdentifyLo.identify; apply model_call_answer].
  vm_compute. discriminate.
Qed.

Lemma client_side_error_is_error {E : Engine} (m : json) :
  is_error (error_object (JString (js "Client-Side Error")) m) = true.
Proof. vm_compute. reflexivity. Qed.

(** Every outcome of the proxied client is a returned value, and it is
    an error object unless a 2xx response carried a JSON body. *)
Lemma proxied_outcome {E : Engine} (imageFile : File) (fetch : Fetch) :
  exists result,
    ProxiedService.identifyImage imageFile fetch = Normal result
    /\ (is_error result = true
        \/ exists base64 response,
             fileToBase64 imageFile = Normal base64
             /\ fetch ProxiedService.endpoint (ProxiedService.request imageFile base64)
                = Normal response
             /\ ok response = true
             /\ response_json response = Normal result).
Proof.
  destruct (fileToBase64 imageFile) as [b|e] eqn:Hf.
  - destruct (fetch ProxiedService.endpoint (ProxiedService.request imageFile b))
      as [resp|e] eqn:Hr.
    + rewrite (proxied_answer _ _ _ _ Hf Hr).
      destruct (ok resp) eqn:Hok.
      * destruct (response_json resp) as [v|e] eqn:Hj.
        -- exists v. split; [reflexivity|]. right. now exists b, resp.
        -- eexists. split; [reflexivity|]. left. apply client_side_error_is_error.
      * destruct (response_json resp) as [[]|e] eqn:Hj;
          (eexists; split; [reflexivity|]; left; rewrite is_error_error_object).
        7: vm_compute; reflexivity.
        6: apply js_or_truthy; vm_compute; reflexivity.
        all: vm_compute; reflexivity.
    + unfold ProxiedService.identifyImage. rewrite Hf. cbn [bind]. rewrite Hr.
      cbn [bind try_catch]. eexists. split; [reflexivity|].
      left. apply client_side_error_is_error.
  - unfold ProxiedService.identifyImage. rewrite Hf. cbn [bind try_catch].
    eexists. split; [reflexivity|]. left. apply client_side_error_is_error.
Qed.

Lemma well_formed_error {E : Engine} (st : N) (code message : jstring) :
  st = 400 \/ st = 405 \/ st = 500 -> code <> [] ->
  well_formed_response
    (Normal {| statusCode := st;
               body := JSON_stringify (error_object (JString code) (JString message));
               headers := json_headers |}).
Proof.
  intros Hst Hcode. eexists. split; [reflexivity|]. cbn [statusCode body headers].
  split; [tauto|]. split; [reflexivity|]. split; [eexists; reflexivity|].
  intros _. now exists code, message.
Qed.

Lemma well_formed_answer {E : Engine} (r : completion HandlerResponse) (code : jstring) :
  code <> [] -> answer_200_or_500 r code -> well_formed_response r.
Proof.
  intros Hcode [[v ->] | [message ->]].
  - eexists. split; [reflexivity|]. cbn [statusCode body headers].
    split; [tauto|]. split; [reflexivity|]. split; [eexists; reflexivity|].
    intros H. contradiction.
  - apply well_formed_error; tauto.
Qed.

(* ================================================================== *)
(** * The claims *)




(** C2, as the code has it.  When the trimmed text is a fenced block,
    the text that is parsed is the body with its white space trimmed,
    provided that trimmed body is not empty; when it is empty the whole
    trimmed text is parsed.  And a text whose trimmed form is a JSON text
    is parsed as that trimmed form. *)
Theorem fenced_body_trimmed_then_parsed {E : Engine} :
  (forall text tag body nl,
      forallb is_word_char tag = true ->
      nl = [] \/ nl = [0xA] ->
      trim text = fenced tag body nl ->
      (trim body <> [] ->
       extractJson text = trim body
       /\ JSON_parse (extractJson text) = JSON_parse (trim body))
      /\ (trim body = [] -> extractJson text = trim text))
  /\ (forall text v,
         parse_json (trim text) = Some v ->
         extractJson text = trim text
         /\ JSON_parse (extractJson text) = Normal v).
Proof.
  split.
  - intros text tag body nl Htag Hnl Htext.
    pose proof (extractJson_fenced text tag body nl Htag Hnl Htext) as H.
    split.
    + intros Hne. destruct (trim body) as [|c b] eqn:Hb; [contradiction|].
      cbn [string_truthy] in H. now rewrite H.
    + intros Hb. rewrite Hb in H. exact H.
  - intros text v Hv.
    pose proof (extractJson_unfenced text (json_text_not_fenced _ _ Hv)) as H.
    split; [exact H|]. rewrite H. unfold JSON_parse. now rewrite Hv.
Qed.

Lemma fenced_body_trimmed_then_parsed_witness :
  let body := jsq "  {'name':'Fern'} " in
  let text := jsq " ```json" ++ 0xA :: body ++ 0xA :: jsq "```  " in
  forallb is_word_char (js "json") = true
  /\ trim text = fenced (js "json") body [0xA]
  /\ trim body <> []
  /\ extractJson text = jsq "{'name':'Fern'}"
  /\ JSON_parse (E := LiteralEngine) (extractJson text)
     = Normal (JObject [(js "name", JString (js "Fern"))])
  /\ parse_json (E := LiteralEngine) (trim (jsq " [true] ")) = Some (JArray [JBool true])
  /\ extractJson (jsq " [true] ") = jsq "[true]".
Proof.
  intros body text.
  assert (Htag : forallb is_word_char (js "json") = true) by reflexivity.
  assert (Htext : trim text = fenced (js "json") body [0xA]) by reflexivity.
  assert (Hne : trim body <> []) by (vm_compute; discriminate).
  assert (Hv : parse_json (E := LiteralEngine) (trim (jsq " [true] "))
               = Some (JArray [JBool true])) by reflexivity.
  destruct (fenced_body_trimmed_then_parsed (E := LiteralEngine)) as [Hf Hu].
  destruct (Hf text (js "json") body [0xA] Htag (or_intror eq_refl) Htext) as [Hf1 _].
  destruct (Hf1 Hne) as [H1 H2].
  destruct (Hu (jsq " [true] ") _ Hv) as [H3 _].
  split; [exact Htag|]. split; [exact Htext|]. split; [exact Hne|].
  split; [rewrite H1; reflexivity|]. split; [rewrite H2; reflexivity|].
  split; [exact Hv|]. rewrite H3. reflexivity.
Defined.

(** C2 as stated fails: with a no-break space before the body, the
    handler answers 200 with the object parsed from the trimmed body,
    while the body alone is not a JSON text. *)
Lemma fenced_body_with_nbsp :
  let body := 0xA0 :: js "{}" in
  let text := fenced [] body [0xA] in
  trim text = fenced [] body [0xA]
  /\ parse_json (E := LiteralEngine) body = None
  /\ JSON_parse (E := LiteralEngine) (extractJson text) = Normal (JObject [])
  /\ JSON_parse (E := LiteralEngine) (extractJson text) <> JSON_parse (E := LiteralEngine) body
  /\ Identify.handler (E := LiteralEngine) sample_event sample_key (answers text)
     = Normal {| statusCode := 200; body := js "{}"; headers := json_headers |}.
Proof.
  intros body text. repeat split; try reflexivity.
  vm_compute. discriminate.
Qed.




(** C4.  The promise of the proxied [identifyImage] never rejects: it
    always resolves; it resolves to an error object unless a 2xx response
    carried a JSON body; and an exception thrown by [fetch] becomes error
    code "Client-Side Error" with the exception's message, or with the
    generic message when the thrown value is not an [Error]. *)
Theorem identifyImage_never_rejects {E : Engine} (imageFile : File) (fetch : Fetch) :
  (exists result, ProxiedService.identifyImage imageFile fetch = Normal result)
  /\ (forall result,
         ProxiedService.identifyImage imageFile fetch = Normal result ->
         is_error result = true
         \/ exists base64 response,
              fileToBase64 imageFile = Normal base64
              /\ fetch ProxiedService.endpoint (ProxiedService.request imageFile base64)
                 = Normal response
              /\ ok response = true
              /\ response_json response = Normal result)
  /\ (forall base64 e,
         fileToBase64 imageFile = Normal base64 ->
         fetch ProxiedService.endpoint (ProxiedService.request imageFile base64) = Throw e ->
         ProxiedService.identifyImage imageFile fetch
         = Normal (error_object (JString (js "Client-Side Error"))
                     (JString (match e with
                               | ErrorObject _ message => message
                               | NotAnError =>
                                   js "An unexpected error occurred while communicating with the identification service."
                               end)))).
Proof.
  destruct (proxied_outcome imageFile fetch) as (result & Hres & Hcases).
  split; [now exists result|]. split.
  - intros result' H. rewrite Hres in H. injection H as <-. exact Hcases.
  - intros base64 e Hf Hr. unfold ProxiedService.identifyImage.
    rewrite Hf. cbn [bind]. rewrite Hr. cbn [bind try_catch]. now destruct e.
Qed.

Lemma identifyImage_never_rejects_witness :
  let offline : Fetch := fun _ _ => Throw (ErrorObject (js "TypeError") (js "Failed to fetch")) in
  let aborted : Fetch := fun _ _ => Throw NotAnError in
  fileToBase64 sample_file = Normal (js "AAAA")
  /\ ProxiedService.identifyImage (E := LiteralEngine) sample_file offline
     = Normal (error_object (JString (js "Client-Side Error")) (JString (js "Failed to fetch")))
  /\ ProxiedService.identifyImage (E := LiteralEngine) sample_file aborted
     = Normal (error_object (JString (js "Client-Side Error"))
                 (JString (js "An unexpected error occurred while communicating with the identification service."))).
Proof.
  intros offline aborted.
  assert (Hf : fileToBase64 sample_file = Normal (js "AAAA")) by reflexivity.
  split; [exact Hf|]. split.
  - destruct (identifyImage_never_rejects (E := LiteralEngine) sample_file offline)
      as (_ & _ & H).
    exact (H (js "AAAA") _ Hf eq_refl).
  - destruct (identifyImage_never_rejects (E := LiteralEngine) sample_file aborted)
      as (_ & _ & H).
    exact (H (js "AAAA") _ Hf eq_refl).
Defined.

(** Supporting lemma for C5: the order of the checks of the English
    handler, and what each answers. *)
Lemma handler_checks_in_order {E : Engine} (event : HandlerEvent)
    (API_KEY : option jstring) (generateContent : GenerateContent) :
  (httpMethod event <> js "POST" ->
   Identify.handler event API_KEY generateContent
   = Normal {| statusCode := 405;
               body := JSON_stringify
                         (error_object (JString (js "Method Not Allowed"))
                            (JString (js "Only POST requests are accepted.")));
               headers := json_headers |})
  /\ (httpMethod event = js "POST" -> opt_truthy API_KEY = false ->
      Identify.handler event API_KEY generateContent
      = Normal {| statusCode := 500;
                  body := JSON_stringify
                            (error_object (JString (js "Configuration Error"))
                               (JString (js "API Key is not configured on the server.")));
                  headers := json_headers |})
  /\ (forall e,
         httpMethod event = js "POST" -> opt_truthy API_KEY = true ->
         Identify.parse_request event = Throw e ->
         Identify.handler event API_KEY generateContent
         = Normal {| statusCode := 400;
                     body := JSON_stringify
                               (error_object (JString (js "Bad Request"))
                                  (JString (error_message e (js "Invalid request body."))));
                     headers := json_headers |}).
Proof.
  unfold Identify.handler. repeat split.
  - intros Hm. apply jstring_eqb_neq in Hm. now rewrite Hm.
  - intros Hm Hk. now rewrite Hm, jstring_eqb_refl, Hk.
  - intros e Hm Hk Hb. now rewrite Hm, jstring_eqb_refl, Hk, Hb.
Qed.

(** Supporting lemma for C5: a body that is missing, empty or not JSON,
    or whose [imageData] or [mimeType] is missing or falsy, fails the
    check of the English handler. *)
Lemma parse_request_rejects {E : Engine} (event : HandlerEvent) :
  (opt_truthy (event_body event) = false
   \/ parse_json (the_string (event_body event)) = None
   \/ exists body,
        parse_json (the_string (event_body event)) = Some body
        /\ (body = JNull
            \/ match get_property body (js "imageData"), get_property body (js "mimeType") with
               | Normal i, Normal m => truthy i && truthy m = false
               | _, _ => True
               end)) ->
  exists e, Identify.parse_request event = Throw e.
Proof.
  unfold Identify.parse_request, JSON_parse.
  intros [H | [H | (body & H & Hb)]].
  - rewrite H. eexists. reflexivity.
  - destruct (opt_truthy (event_body event)); cbn [negb]; [|eexists; reflexivity].
    rewrite H. eexists. reflexivity.
  - destruct (opt_truthy (event_body event)); cbn [negb]; [|eexists; reflexivity].
    rewrite H. cbn [bind]. destruct Hb as [-> | Hb]; [eexists; reflexivity|].
    destruct (get_property body (js "imageData")) as [i|e]; cbn [bind];
      [|eexists; reflexivity].
    destruct (truthy i); cbn [negb]; [|eexists; reflexivity].
    destruct (get_property body (js "mimeType")) as [m|e]; cbn [bind];
      [|eexists; reflexivity].
    destruct (truthy m); cbn [negb]; [discriminate Hb | eexists; reflexivity].
Qed.

(** C5, the code at the failing input.  A POST whose [imageData] is the
    boolean [true] passes the check of the English handler, which goes on
    to call the model and never answers 400; the Lao handler answers
    400. *)
Theorem non_string_imageData_passes {E : Engine} (generateContent : GenerateContent) :
  Identify.parse_request untyped_event
  = Normal (JObject [(js "imageData", JBool true);
                     (js "mimeType", JString (js "image/png"))])
  /\ (exists response,
         Identify.handler untyped_event sample_key generateContent = Normal response
         /\ (statusCode response = 200 \/ statusCode response = 500))
  /\ (exists response,
         IdentifyLo.handler untyped_event sample_key generateContent = Normal response
         /\ statusCode response = 400).
Proof.
  assert (Hb : Identify.parse_request untyped_event
               = Normal (JObject [(js "imageData", JBool true);
                                  (js "mimeType", JString (js "image/png"))]))
    by (vm_compute; reflexivity).
  split; [exact Hb|]. split.
  - rewrite (handler_accepted untyped_event sample_key generateContent _
               eq_refl eq_refl Hb).
    destruct (identify_answers
                (JObject [(js "imageData", JBool true);
                          (js "mimeType", JString (js "image/png"))])
                (the_string sample_key) generateContent) as [[v ->] | [m ->]];
      eexists; (split; [reflexivity|]); cbn [statusCode]; tauto.
  - eexists. split; [vm_compute; reflexivity | reflexivity].
Qed.

(** C6.  When the response is not 2xx and its body is not a JSON text,
    the proxied client returns error code "Network Error" and the message
    "Request failed with status " followed by the status in decimal; for
    status 503 the message is "Request failed with status 503". *)
Theorem unparsable_error_body_is_network_error {E : Engine} (imageFile : File)
    (fetch : Fetch) (base64 : jstring) (response : Response) :
  fileToBase64 imageFile = Normal base64 ->
  fetch ProxiedService.endpoint (ProxiedService.request imageFile base64) = Normal response ->
  ok response = false ->
  (forall t, text response = Normal t -> parse_json t = None) ->
  ProxiedService.identifyImage imageFile fetch
  = Normal (error_object (JString (js "Network Error"))
              (JString (js "Request failed with status " ++ decimal (status response))))
  /\ (status response = 503 ->
      ProxiedService.identifyImage imageFile fetch
      = Normal (error_object (JString (js "Network Error"))
                  (JString (js "Request failed with status 503")))).
Proof.
  intros Hf Hr Hok Hbody.
  assert (H : ProxiedService.identifyImage imageFile fetch
              = Normal (error_object (JString (js "Network Error"))
                          (JString (js "Request failed with status "
                                    ++ decimal (status response))))).
  { rewrite (proxied_answer _ _ _ _ Hf Hr), Hok.
    unfold response_json, JSON_parse, ProxiedService.request_failed.
    destruct (text response) as [t|e]; cbn [bind]; [|reflexivity].
    rewrite (Hbody t eq_refl). reflexivity. }
  split; [exact H|]. intros Hst. rewrite H, Hst.
  vm_compute. reflexivity.
Qed.

Lemma unparsable_error_body_is_network_error_witness :
  let response := {| status := 503; text := Normal (js "<html>Service Unavailable</html>") |} in
  let fetch : Fetch := fun _ _ => Normal response in
  fileToBase64 sample_file = Normal (js "AAAA")
  /\ ok response = false
  /\ parse_json (E := LiteralEngine) (js "<html>Service Unavailable</html>") = None
  /\ ProxiedService.identifyImage (E := LiteralEngine) sample_file fetch
     = Normal (error_object (JString (js "Network Error"))
                 (JString (js "Request failed with status 503"))).
Proof.
  intros response fetch.
  assert (Hf : fileToBase64 sample_file = Normal (js "AAAA")) by reflexivity.
  assert (Hp : parse_json (E := LiteralEngine) (js "<html>Service Unavailable</html>") = None)
    by reflexivity.
  split; [exact Hf|]. split; [reflexivity|]. split; [exact Hp|].
  refine (proj2 (unparsable_error_body_is_network_error (E := LiteralEngine)
                   sample_file fetch (js "AAAA") response Hf eq_refl eq_refl _) eq_refl).
  intros t Ht. unfold response in Ht. cbn [text] in Ht. injection Ht as <-. exact Hp.
Defined.

(** C7.  When the response is 2xx and its body is a JSON text, the
    proxied client returns the value of that text as it is; for status 200
    and the Mango body this is the object with that name and that
    description, which is not an error object. *)
Theorem json_body_returned_unchanged {E : Engine} (imageFile : File) (fetch : Fetch)
    (base64 : jstring) (response : Response) :
  fileToBase64 imageFile = Normal base64 ->
  fetch ProxiedService.endpoint (ProxiedService.request imageFile base64) = Normal response ->
  ok response = true ->
  (forall t v,
      text response = Normal t -> parse_json t = Some v ->
      ProxiedService.identifyImage imageFile fetch = Normal v)
  /\ (text response = Normal mango_text ->
      ProxiedService.identifyImage imageFile fetch = Normal mango
      /\ is_error mango = false
      /\ get_property mango (js "name") = Normal (Some (JString (js "Mango")))).
Proof.
  intros Hf Hr Hok.
  assert (H : forall t v,
             text response = Normal t -> parse_json t = Some v ->
             ProxiedService.identifyImage imageFile fetch = Normal v).
  { intros t v Ht Hv. rewrite (proxied_answer _ _ _ _ Hf Hr), Hok.
    unfold response_json, JSON_parse. rewrite Ht. cbn [bind]. now rewrite Hv. }
  split; [exact H|]. intros Ht. split; [|split].
  - apply (H mango_text mango Ht). vm_compute. reflexivity.
  - vm_compute. reflexivity.
  - vm_compute. reflexivity.
Qed.

Lemma json_body_returned_unchanged_witness :
  let response := {| status := 200; text := Normal mango_text |} in
  let fetch : Fetch := fun _ _ => Normal response in
  fileToBase64 sample_file = Normal (js "AAAA")
  /\ ok response = true
  /\ ProxiedService.identifyImage (E := LiteralEngine) sample_file fetch = Normal mango.
Proof.
  intros response fetch.
  assert (Hf : fileToBase64 sample_file = Normal (js "AAAA")) by reflexivity.
  split; [exact Hf|]. split; [reflexivity|].
  exact (proj1 (proj2 (json_body_returned_unchanged (E := LiteralEngine)
                         sample_file fetch (js "AAAA") response Hf eq_refl eq_refl)
                  eq_refl)).
Defined.



(** C9, as the code has it.  There is no EncodingError: when the read
    fails the encoder rejects with the reader's event, and when the data
    URL has no non-empty part after its first comma it rejects with a
    plain [Error]; the proxied client catches both and returns error code
    "Client-Side Error", with the generic message in the first case and
    "Failed to read base64 string from file." in the second. *)
Theorem unreadable_file_is_client_side_error {E : Engine} (imageFile : File)
    (fetch : Fetch) :
  (content imageFile = ReadError ->
   fileToBase64 imageFile = Throw NotAnError
   /\ ProxiedService.identifyImage imageFile fetch
      = Normal (error_object (JString (js "Client-Side Error"))
                  (JString (js "An unexpected error occurred while communicating with the identification service."))))
  /\ (forall result,
         content imageFile = Loaded result ->
         opt_truthy (nth_error (split 0x2C result) 1) = false ->
         fileToBase64 imageFile
         = Throw (ErrorObject (js "Error") (js "Failed to read base64 string from file."))
         /\ ProxiedService.identifyImage imageFile fetch
            = Normal (error_object (JString (js "Client-Side Error"))
                        (JString (js "Failed to read base64 string from file.")))).
Proof.
  split.
  - intros Hc.
    assert (Hf : fileToBase64 imageFile = Throw NotAnError)
      by (unfold fileToBase64; now rewrite Hc).
    split; [exact Hf|]. unfold ProxiedService.identifyImage. now rewrite Hf.
  - intros result Hc Hp.
    assert (Hf : fileToBase64 imageFile
                 = Throw (ErrorObject (js "Error")
                            (js "Failed to read base64 string from file.")))
      by (unfold fileToBase64; now rewrite Hc, Hp).
    split; [exact Hf|]. unfold ProxiedService.identifyImage. now rewrite Hf.
Qed.

Lemma unreadable_file_is_client_side_error_witness :
  let fetch : Fetch := fun _ _ => Throw NotAnError in
  let broken := {| type := js "image/png"; content := ReadError |} in
  content broken = ReadError
  /\ ProxiedService.identifyImage (E := LiteralEngine) broken fetch
     = Normal (error_object (JString (js "Client-Side Error"))
                 (JString (js "An unexpected error occurred while communicating with the identification service.")))
  /\ content empty_file = Loaded (js "data:image/png;base64,")
  /\ opt_truthy (nth_error (split 0x2C (js "data:image/png;base64,")) 1) = false
  /\ ProxiedService.identifyImage (E := LiteralEngine) empty_file fetch
     = Normal (error_object (JString (js "Client-Side Error"))
                 (JString (js "Failed to read base64 string from file."))).
Proof.
  intros fetch broken.
  split; [reflexivity|]. split.
  - exact (proj2 (proj1 (unreadable_file_is_client_side_error (E := LiteralEngine)
                           broken fetch) eq_refl)).
  - split; [reflexivity|]. split; [reflexivity|].
    exact (proj2 (proj2 (unreadable_file_is_client_side_error (E := LiteralEngine)
                           empty_file fetch) _ eq_refl eq_refl)).
Defined.

(** C9 as stated fails: for a file whose data URL has an empty payload,
    the encoder rejects with an error named "Error" and the client
    returns error code "Client-Side Error"; neither is "EncodingError". *)
Lemma empty_payload_not_EncodingError :
  let fetch : Fetch := fun _ _ => Throw NotAnError in
  fileToBase64 empty_file
  = Throw (ErrorObject (js "Error") (js "Failed to read base64 string from file."))
  /\ js "Error" <> js "EncodingError"
  /\ ProxiedService.identifyImage (E := LiteralEngine) empty_file fetch
     = Normal (error_object (JString (js "Client-Side Error"))
                 (JString (js "Failed to read base64 string from file.")))
  /\ js "Client-Side Error" <> js "EncodingError".
Proof.
  intros fetch. split; [reflexivity|]. split; [vm_compute; discriminate|].
  split; [reflexivity|]. vm_compute. discriminate.
Qed.

(** C10.  On every event, with or without a key and whatever the model
    does, both handlers return a response and throw nothing: its status
    is 200, 400, 405 or 500, its only header is the JSON content type,
    its body is made by JSON.stringify, and unless the status is 200 the
    body is an error object with a non-empty error code. *)
Theorem handler_always_responds {E : Engine} (event : HandlerEvent)
    (API_KEY : option jstring) (generateContent : GenerateContent) :
  well_formed_response (Identify.handler event API_KEY generateContent)
  /\ well_formed_response (IdentifyLo.handler event API_KEY generateContent).
Proof.
  split.
  - unfold Identify.handler.
    destruct (jstring_eqb (httpMethod event) (js "POST")); cbn [negb];
      [|apply well_formed_error; [tauto | vm_compute; discriminate]].
    destruct (opt_truthy API_KEY); cbn [negb];
      [|apply well_formed_error; [tauto | vm_compute; discriminate]].
    destruct (Identify.parse_request event) as [body|e];
      [|apply well_formed_error; [tauto | vm_compute; discriminate]].
    apply (well_formed_answer _ (js "AI Service Error"));
      [vm_compute; discriminate | apply identify_answers].
  - unfold IdentifyLo.handler.
    destruct (jstring_eqb (httpMethod event) (js "POST")); cbn [negb];
      [|apply well_formed_error; [tauto | vm_compute; discriminate]].
    destruct (opt_truthy API_KEY); cbn [negb];
      [|apply well_formed_error; [tauto | vm_compute; discriminate]].
    destruct (IdentifyLo.parse_request event) as [body|e];
      [|apply well_formed_error; [tauto | vm_compute; discriminate]].
    destruct (identify_lo_answers body (the_string API_KEY) generateContent)
      as (code & Hcode & H).
    exact (well_formed_answer _ code Hcode H).
Qed.

(* ================================================================== *)
(** * Further properties: the fence stripping *)

Lemma starts_with_app (p s : jstring) : starts_with p (p ++ s) = true.
Proof. induction p as [|c p IH]; simpl; [reflexivity|]. now rewrite N.eqb_refl. Qed.

Lemma starts_with_inv (p s : jstring) :
  starts_with p s = true -> exists r, s = p ++ r.
Proof.
  revert s. induction p as [|c p IH]; intros s H.
  - now exists s.
  - destruct s as [|d s]; [discriminate|]. simpl in H.
    apply andb_true_iff in H as [Hc H]. apply N.eqb_eq in Hc. subst d.
    destruct (IH s H) as [r ->]. now exists r.
Qed.

Lemma unfence_spec (t inner : jstring) :
  unfence t = Some inner <-> t = fence ++ inner ++ fence.
Proof.
  unfold unfence. split.
  - destruct (starts_with fence t) eqn:H1; [|discriminate].
    destruct (starts_with_inv _ _ H1) as [r ->].
    change (skipn 3 (fence ++ r)) with r.
    destruct (starts_with fence (rev r)) eqn:H2; [|discriminate].
    destruct (starts_with_inv _ _ H2) as [r' Hr'].
    rewrite Hr'. change (skipn 3 (fence ++ r')) with r'.
    intros H. injection H as <-.
    apply (f_equal (@rev N)) in Hr'. rewrite rev_involutive, rev_app_distr in Hr'.
    now rewrite Hr'.
  - intros ->. rewrite starts_with_app.
    change (skipn 3 (fence ++ inner ++ fence)) with (inner ++ fence).
    rewrite rev_app_distr. change (rev fence) with fence.
    rewrite starts_with_app.
    change (skipn 3 (fence ++ rev inner)) with (rev inner).
    now rewrite rev_involutive.
Qed.

Lemma drop_while_prefix (p : N -> bool) (s : jstring) :
  exists w, s = w ++ drop_while p s /\ forallb p w = true.
Proof.
  induction s as [|c s (w & Hw & Hp)]; [now exists []|].
  simpl. destruct (p c) eqn:Hc.
  - exists (c :: w). simpl. rewrite Hc. split; [now f_equal | exact Hp].
  - now exists [].
Qed.

Lemma after_tag_any (y : jstring) (pos : nat) (cs : captures) :
  rmatch after_tag pos (y ++ fence) cs final = Some ((2%nat, trim y) :: cs).
Proof.
  unfold after_tag. cbn [rmatch].
  apply star_greedy_drop. intros pos'.
  assert (Hd : drop_while is_white_space (y ++ fence) = trim_start y ++ fence).
  { unfold fence. now rewrite drop_while_app_stop by reflexivity. }
  rewrite Hd. clear Hd.
  destruct (trim_start y) as [|c z] eqn:Hy.
  - unfold trim. rewrite Hy. simpl app. cbn [rmatch fence].
    change (0xA =? backtick) with false. cbv iota.
    apply (body_close_spec []).
  - pose proof (drop_while_head _ _ _ _ Hy) as Hc.
    simpl app. cbn [rmatch].
    destruct (N.eqb_spec 0xA c) as [<-|_]; [discriminate Hc|].
    unfold trim. rewrite Hy. apply (body_close_spec (c :: z)).
Qed.

Lemma after_open_any (inner : jstring) (pos : nat) :
  exists cs,
    rmatch after_open pos (inner ++ fence) [] final
    = Some ((2%nat, trim (drop_while is_word_char inner)) :: cs).
Proof.
  destruct (drop_while_prefix is_word_char inner) as (tag & Hin & Htag).
  assert (Hrest : match drop_while is_word_char inner ++ fence with
                  | [] => True
                  | c :: _ => is_word_char c = false
                  end).
  { destruct (drop_while is_word_char inner) as [|c r] eqn:Hd; [reflexivity|].
    exact (drop_while_head _ _ _ _ Hd). }
  unfold after_open. cbn [rmatch].
  remember (drop_while is_word_char inner) as rest eqn:Erest.
  destruct tag as [|t tag].
  - exists []. simpl in Hin. rewrite <- Hin in Hrest.
    assert (Hs : forall k,
               star_greedy is_word_char pos (inner ++ fence) [] k
               = k pos (inner ++ fence) []).
    { intros k. destruct (inner ++ fence) as [|c r]; [reflexivity|].
      cbn [star_greedy]. now rewrite Hrest. }
    rewrite Hs, Nat.eqb_refl. rewrite Hin. apply after_tag_any.
  - exists [(1%nat, t :: tag)].
    rewrite Hin. rewrite <- app_assoc.
    rewrite (star_greedy_max is_word_char (t :: tag) (rest ++ fence) pos []
               _ ((2%nat, trim rest) :: [(1%nat, t :: tag)]) Htag Hrest);
      [reflexivity|].
    replace (Nat.eqb (pos + length (t :: tag)) pos) with false
      by (symmetry; apply Nat.eqb_neq; simpl; lia).
    replace (pos + length (t :: tag) - pos)%nat with (length (t :: tag)) by lia.
    rewrite firstn_app, firstn_all, Nat.sub_diag. simpl firstn. rewrite app_nil_r.
    apply after_tag_any.
Qed.

(** Between two fences the pattern always matches, and its second group
    is the trimmed text after the run of word characters. *)
Lemma match_between_fences (inner : jstring) :
  exists cs,
    String_match (fence ++ inner ++ fence) fenceRegex
    = Some ((2%nat, trim (drop_while is_word_char inner)) :: cs).
Proof.
  destruct (after_open_any inner 3) as [cs H]. exists cs.
  unfold String_match. apply exec_from_first.
  rewrite fenceRegex_parts. unfold fence at 1. cbn [app rmatch Nat.eqb].
  rewrite N.eqb_refl. exact H.
Qed.

(** A match hands its continuation a suffix of the input. *)
Lemma star_greedy_suffix (p : N -> bool) (s : jstring) (pos : nat) (cs : captures)
    (k : cont) (res : captures) :
  star_greedy p pos s cs k = Some res ->
  exists a s' pos', s = a ++ s' /\ k pos' s' cs = Some res.
Proof.
  revert pos. induction s as [|c s IH]; intros pos; cbn [star_greedy].
  - intros H. now exists [], [], pos.
  - destruct (p c).
    + destruct (star_greedy p (S pos) s cs k) as [r|] eqn:Hs.
      * intros H. injection H as ->.
        destruct (IH _ Hs) as (a & s' & pos' & -> & Hk).
        now exists (c :: a), s', pos'.
      * intros H. now exists [], (c :: s), pos.
    + intros H. now exists [], (c :: s), pos.
Qed.

Lemma star_lazy_suffix (p : N -> bool) (s : jstring) (pos : nat) (cs : captures)
    (k : cont) (res : captures) :
  star_lazy p pos s cs k = Some res ->
  exists a s' pos', s = a ++ s' /\ k pos' s' cs = Some res.
Proof.
  revert pos. induction s as [|c s IH]; intros pos; cbn [star_lazy].
  - destruct (k pos [] cs) as [r|] eqn:Hk; [|discriminate].
    intros H. injection H as ->. now exists [], [], pos.
  - destruct (k pos (c :: s) cs) as [r|] eqn:Hk.
    + intros H. injection H as ->. now exists [], (c :: s), pos.
    + destruct (p c); [|discriminate]. intros H.
      destruct (IH _ H) as (a & s' & pos' & -> & Hk').
      now exists (c :: a), s', pos'.
Qed.

Lemma rmatch_suffix (r : regex) (pos : nat) (s : jstring) (cs : captures)
    (k : cont) (res : captures) :
  rmatch r pos s cs k = Some res ->
  exists a s' pos' cs', s = a ++ s' /\ k pos' s' cs' = Some res.
Proof.
  revert pos s cs k.
  induction r as [| |c|g p|r IH|i r IH|r1 IH1 r2 IH2]; intros pos s cs k; cbn [rmatch].
  - destruct (Nat.eqb pos 0); [|discriminate]. intros H. now exists [], s, pos, cs.
  - destruct s; [|discriminate]. intros H. now exists [], [], pos, cs.
  - destruct s as [|d s]; [discriminate|]. destruct (c =? d); [|discriminate].
    intros H. now exists [d], s, (S pos), cs.
  - destruct g; intros H.
    + destruct (star_greedy_suffix _ _ _ _ _ _ H) as (a & s' & pos' & Hs & Hk).
      now exists a, s', pos', cs.
    + destruct (star_lazy_suffix _ _ _ _ _ _ H) as (a & s' & pos' & Hs & Hk).
      now exists a, s', pos', cs.
  - destruct (rmatch r pos s cs _) as [x|] eqn:Hr.
    + intros H. injection H as ->.
      destruct (IH _ _ _ _ Hr) as (a & s' & pos' & cs' & Hs & Hk).
      destruct (Nat.eqb pos' pos); [discriminate|]. now exists a, s', pos', cs'.
    + intros H. now exists [], s, pos, cs.
  - intros H. destruct (IH _ _ _ _ H) as (a & s' & pos' & cs' & Hs & Hk).
    now exists a, s', pos', ((i, firstn (pos' - pos) s) :: cs').
  - intros H. destruct (IH1 _ _ _ _ H) as (a & s' & pos' & cs' & -> & Hk).
    destruct (IH2 _ _ _ _ Hk) as (a2 & s2 & pos2 & cs2 & -> & Hk2).
    exists (a ++ a2), s2, pos2, cs2. now rewrite <- app_assoc.
Qed.

Lemma rmatch_seq (r1 r2 : regex) (pos : nat) (s : jstring) (cs : captures)
    (k : cont) (res : captures) :
  rmatch (RSeq r1 r2) pos s cs k = Some res ->
  exists a s' pos' cs', s = a ++ s' /\ rmatch r2 pos' s' cs' k = Some res.
Proof. intros H. exact (rmatch_suffix r1 _ _ _ _ _ H). Qed.

Lemma closes_inv (s : jstring) : closes s = true -> exists w, s = w ++ fence.
Proof.
  unfold closes. intros H. apply jstring_eqb_eq in H.
  destruct (drop_while_prefix is_white_space s) as (w & Hw & _).
  exists w. now rewrite <- H.
Qed.

(** The pattern only matches a text that lies between two fences. *)
Lemma match_only_between_fences (s : jstring) (cs : captures) :
  String_match s fenceRegex = Some cs -> exists inner, s = fence ++ inner ++ fence.
Proof.
  unfold String_match. intros H.
  assert (H0 : rmatch fenceRegex 0 s [] final = Some cs).
  { destruct s as [|c s]; cbn [exec_from] in H.
    - now destruct (rmatch fenceRegex 0 [] [] _).
    - destruct (rmatch fenceRegex 0 (c :: s) [] _) as [x|] eqn:Hx; [exact H|].
      rewrite exec_from_later in H. discriminate H. }
  clear H. rewrite fenceRegex_parts in H0. cbn [rmatch Nat.eqb] in H0.
  destruct s as [|a [|b [|c s]]]; try discriminate H0;
    repeat match type of H0 with
           | context [backtick =? ?x] =>
               destruct (N.eqb_spec backtick x) as [<-|]; try discriminate H0
           end.
  unfold after_open in H0.
  destruct (rmatch_seq _ _ _ _ _ _ _ H0) as (a1 & s1 & p1 & c1 & -> & H1).
  unfold after_tag in H1.
  destruct (rmatch_seq _ _ _ _ _ _ _ H1) as (a2 & s2 & p2 & c2 & -> & H2).
  destruct (rmatch_seq _ _ _ _ _ _ _ H2) as (a3 & s3 & p3 & c3 & -> & H3).
  unfold body_close in H3.
  destruct (rmatch_seq _ _ _ _ _ _ _ H3) as (a4 & s4 & p4 & c4 & -> & H4).
  rewrite closing_spec in H4.
  destruct (closes s4) eqn:Hc; [|discriminate H4].
  destruct (closes_inv _ Hc) as [w ->].
  exists (a1 ++ a2 ++ a3 ++ a4 ++ w). unfold fence. simpl.
  now rewrite <- !app_assoc.
Qed.

(** The two cases of [extractJson]: between two fences, and anywhere
    else. *)
Lemma extractJson_cases (responseText : jstring) :
  match unfence (trim responseText) with
  | Some inner =>
      trim responseText = fence ++ inner ++ fence
      /\ extractJson responseText
         = if string_truthy (trim (drop_while is_word_char inner))
           then trim (drop_while is_word_char inner)
           else trim responseText
  | None => extractJson responseText = trim responseText
  end.
Proof.
  unfold extractJson.
  destruct (unfence (trim responseText)) as [inner|] eqn:Hu.
  - apply unfence_spec in Hu. split; [exact Hu|]. rewrite Hu.
    destruct (match_between_fences inner) as [cs ->].
    cbn [capture Nat.eqb]. now rewrite trim_idem.
  - destruct (String_match (trim responseText) fenceRegex) as [cs|] eqn:Hm;
      [|reflexivity].
    destruct (match_only_between_fences _ _ Hm) as [inner Hin].
    apply unfence_spec in Hin. rewrite Hin in Hu. discriminate Hu.
Qed.

(** X1.  The regular expression of lines 243-248 computes what the
    explicit parser computes: for every response text, [extractJson]
    (trim, match, take group 2 when it is non-empty, trim again) equals
    [strip_fence]. *)
Theorem extractJson_is_strip_fence (responseText : jstring) :
  extractJson responseText = strip_fence responseText.
Proof.
  unfold strip_fence. pose proof (extractJson_cases responseText) as H.
  destruct (unfence (trim responseText)) as [inner|].
  - destruct H as [_ H]. exact H.
  - exact H.
Qed.

Lemma trim_end_suffix (y : jstring) : exists w, y = trim_end y ++ w.
Proof.
  unfold trim_end.
  destruct (drop_while_prefix is_white_space (rev y)) as (w & Hw & _).
  exists (rev w). apply (f_equal (@rev N)) in Hw.
  now rewrite rev_involutive, rev_app_distr in Hw.
Qed.

Lemma trim_infix (s : jstring) : exists a b, s = a ++ trim s ++ b.
Proof.
  unfold trim, trim_start.
  destruct (drop_while_prefix is_white_space s) as (a & Ha & _).
  destruct (trim_end_suffix (drop_while is_white_space s)) as (b & Hb).
  exists a, b. now rewrite <- Hb.
Qed.

Lemma trim_nil_inv (y : jstring) : trim y = [] -> forallb is_white_space y = true.
Proof.
  unfold trim, trim_start. intros H.
  destruct (drop_while_prefix is_white_space y) as (w & Hw & Hp).
  destruct (drop_while is_white_space y) as [|c z] eqn:Hd.
  - rewrite app_nil_r in Hw. now subst w.
  - pose proof (drop_while_head _ _ _ _ Hd) as Hc.
    rewrite trim_end_cons in H. simpl forallb in H. rewrite Hc in H. discriminate H.
Qed.

Lemma trim_blank (y : jstring) : forallb is_white_space y = true -> trim y = [].
Proof. intros H. unfold trim, trim_start. now rewrite (drop_while_all _ _ H). Qed.

(** X2.  What [extractJson] returns is a contiguous part of the response
    text, has no white space at either end, and is empty exactly when the
    response text is blank. *)
Theorem extractJson_is_trimmed_part (responseText : jstring) :
  (exists before after, responseText = before ++ extractJson responseText ++ after)
  /\ trim (extractJson responseText) = extractJson responseText
  /\ (extractJson responseText = [] <-> forallb is_white_space responseText = true).
Proof.
  pose proof (extractJson_cases responseText) as Hc.
  destruct (trim_infix responseText) as (a & b & Ht).
  destruct (unfence (trim responseText)) as [inner|].
  2: rewrite Hc.
  - destruct Hc as [Hu Hc]. rewrite Hc. clear Hc.
    destruct (string_truthy (trim (drop_while is_word_char inner))) eqn:Hb.
    + split; [|split].
      * destruct (drop_while_prefix is_word_char inner) as (tag & Htag & _).
        destruct (trim_infix (drop_while is_word_char inner)) as (a' & b' & Hi).
        exists (a ++ fence ++ tag ++ a'), (b' ++ fence ++ b).
        rewrite Ht at 1. rewrite Hu. rewrite Htag at 1. rewrite Hi at 1.
        now rewrite <- !app_assoc.
      * apply trim_idem.
      * split.
        -- intros H. rewrite H in Hb. discriminate Hb.
        -- intros H. rewrite (trim_blank _ H) in Hu. discriminate Hu.
    + split; [now exists a, b | split; [apply trim_idem|]].
      split.
      * intros H. rewrite H in Hu. discriminate Hu.
      * intros H. rewrite (trim_blank _ H) in Hu. discriminate Hu.
  - split; [now exists a, b | split; [apply trim_idem|]].
    split; [apply trim_nil_inv|].
    apply trim_blank.
Qed.

(* ================================================================== *)
(** * Further properties: the image encoder *)

(** [split] cuts at the first separator. *)
Lemma split_first (sep : N) (a b : jstring) :
  ~ In sep a -> split sep (a ++ sep :: b) = a :: split sep b.
Proof.
  induction a as [|c a IH]; intros Hn.
  - simpl. now rewrite N.eqb_refl.
  - simpl. destruct (N.eqb_spec c sep) as [->|_]; [exfalso; apply Hn; now left|].
    rewrite IH; [reflexivity|]. intros H. apply Hn. now right.
Qed.

Lemma split_none (sep : N) (a : jstring) : ~ In sep a -> split sep a = [a].
Proof.
  induction a as [|c a IH]; intros Hn; [reflexivity|].
  simpl. destruct (N.eqb_spec c sep) as [->|_]; [exfalso; apply Hn; now left|].
  rewrite IH; [reflexivity|]. intros H. apply Hn. now right.
Qed.

(** Every text is its first segment, then, if there is a separator, the
    separator and the rest. *)
Lemma split_head (sep : N) (s : jstring) :
  exists h t,
    split sep s = h :: t /\ ~ In sep h
    /\ ((t = [] /\ s = h) \/ exists r, s = h ++ sep :: r /\ t = split sep r).
Proof.
  induction s as [|c s (h & t & Hs & Hh & Ht)].
  - exists [], []. split; [reflexivity|]. split; [intros []|]. now left.
  - simpl. destruct (N.eqb_spec c sep) as [->|Hc].
    + exists [], (h :: t). rewrite Hs. split; [reflexivity|]. split; [intros []|].
      right. now exists s.
    + rewrite Hs. exists (c :: h), t. split; [reflexivity|]. split.
      * intros [H|H]; [now apply Hc | now apply Hh].
      * destruct Ht as [[-> ->] | (r & -> & ->)]; [now left|].
        right. now exists r.
Qed.

(** X3.  [fileToBase64] resolves exactly when the data URL has a
    non-empty text between its first comma and its second comma (or its
    end), and then resolves to that text; every other outcome is a
    rejection, with the reader's event when the read failed and with
    [Error("Failed to read base64 string from file.")] otherwise. *)
Theorem fileToBase64_payload (file : File) (base64 : jstring) :
  (fileToBase64 file = Normal base64 <->
   base64 <> [] /\ ~ In 0x2C base64
   /\ exists header rest,
        content file = Loaded (header ++ 0x2C :: base64 ++ rest)
        /\ ~ In 0x2C header
        /\ (rest = [] \/ exists r, rest = 0x2C :: r))
  /\ (forall e,
         fileToBase64 file = Throw e ->
         (content file = ReadError /\ e = NotAnError)
         \/ ((exists result, content file = Loaded result)
             /\ e = ErrorObject (js "Error") (js "Failed to read base64 string from file."))).
Proof.
  unfold fileToBase64. split; [split|].
  - destruct (content file) as [result|]; [|discriminate].
    destruct (split_head 0x2C result) as (h & t & Hs & Hh & Ht).
    rewrite Hs. cbn [nth_error].
    destruct Ht as [[-> ->] | (r & -> & ->)]; [discriminate|].
    destruct (split_head 0x2C r) as (h' & t' & Hs' & Hh' & Ht').
    rewrite Hs'. cbn [nth_error opt_truthy the_string].
    destruct h' as [|c h']; [discriminate|]. cbn [string_truthy].
    intros H. injection H as <-.
    split; [discriminate|]. split; [exact Hh'|].
    exists h. destruct Ht' as [[-> ->] | (r' & -> & ->)].
    + exists []. rewrite app_nil_r. repeat split; auto.
    + exists (0x2C :: r'). repeat split; eauto.
  - intros (Hne & Hb & header & rest & Hc & Hh & Hr). rewrite Hc.
    rewrite (split_first _ _ _ Hh). cbn [nth_error].
    assert (Hs : exists t, split 0x2C (base64 ++ rest) = base64 :: t).
    { destruct Hr as [-> | (r & ->)].
      - rewrite app_nil_r, (split_none _ _ Hb). now exists [].
      - rewrite (split_first _ _ _ Hb). eauto. }
    destruct Hs as [t ->]. cbn [opt_truthy the_string].
    destruct base64; [contradiction|reflexivity].
  - intros e. destruct (content file) as [result|].
    + destruct (opt_truthy _); [discriminate|]. intros H. injection H as <-.
      right. split; [now exists result | reflexivity].
    + intros H. injection H as <-. now left.
Qed.

(* ================================================================== *)
(** * Further properties: the direct client *)

Lemma api_error_is_error {E : Engine} (m : json) :
  is_error (error_object (JString (js "API Error")) m) = true.
Proof. vm_compute. reflexivity. Qed.

Lemma error_is_not_message : js "error" <> js "message".
Proof. vm_compute. discriminate. Qed.

(** X4.  The promise of the direct [identifyImage] never rejects: it
    always resolves, and its result is either an error object or the
    value that the extracted text denotes; a result that is not an error
    object arises only when the key is set, the file was encoded, the
    model returned a text and that text, once extracted, is JSON for
    that result. *)
Theorem direct_identifyImage_never_rejects {E : Engine} (imageFile : File)
    (API_KEY : option jstring) (generateContent : GenerateContent) :
  exists result,
    DirectService.identifyImage imageFile API_KEY generateContent = Normal result
    /\ (is_error result = true
        \/ exists base64 responseText,
             opt_truthy API_KEY = true
             /\ fileToBase64 imageFile = Normal base64
             /\ generateContent (the_string API_KEY)
                  (Some (JString (mime_type_of imageFile))) (Some (JString base64))
                = Normal (Some responseText)
             /\ parse_json (extractJson responseText) = Some result).
Proof.
  unfold DirectService.identifyImage.
  destruct (opt_truthy API_KEY) eqn:Hk; cbn [negb].
  2:{ eexists. split; [reflexivity|]. left. vm_compute. reflexivity. }
  destruct (fileToBase64 imageFile) as [b|e] eqn:Hf; cbn [bind try_catch].
  2:{ eexists. split; [reflexivity|]. left. apply api_error_is_error. }
  destruct (generateContent _ _ _) as [[t|]|e] eqn:Hg; cbn [bind try_catch].
  2,3: eexists; (split; [reflexivity|]); left; apply api_error_is_error.
  unfold JSON_parse.
  destruct (parse_json (extractJson t)) as [v|] eqn:Hp; cbn [bind try_catch].
  2:{ eexists. split; [reflexivity|]. left. apply api_error_is_error. }
  destruct v as [|bo|n|st|es|m]; cbn [get_property bind try_catch truthy].
  1:{ eexists. split; [reflexivity|]. left. apply api_error_is_error. }
  1-4: eexists; (split; [reflexivity|]); right; exists b, t; auto.
  destruct (truthy (obj_get m (js "error"))) eqn:He; cbn [bind try_catch].
  - destruct (strict_eq_string _ _); eexists; (split; [reflexivity|]); left.
    + cbn [set_property is_error].
      rewrite obj_get_set_other; [exact He | exact error_is_not_message].
    + exact He.
  - eexists. split; [reflexivity|]. right. exists b, t. auto.
Qed.

(** X5.  The failure modes of the direct client.  Without a key the
    result is the "Configuration Error" object, whatever the file and the
    model; with a key, a file that cannot be encoded, a model call that
    throws and a response without text all give error code "API Error",
    the message being the fixed prefix followed by the message of the
    thrown [Error], or by the generic sentence for another thrown
    value. *)
Theorem direct_failure_modes {E : Engine} (imageFile : File) (API_KEY : option jstring)
    (generateContent : GenerateContent) :
  let api_error (e : thrown) :=
    Normal (error_object (JString (js "API Error"))
              (JString (DirectService.api_error_prefix
                        ++ match e with
                           | ErrorObject _ message => message
                           | NotAnError =>
                               js "An unexpected error occurred during identification."
                           end))) in
  (opt_truthy API_KEY = false ->
   forall otherFile otherModel,
     DirectService.identifyImage imageFile API_KEY generateContent
     = DirectService.identifyImage otherFile API_KEY otherModel
     /\ exists message,
          DirectService.identifyImage imageFile API_KEY generateContent
          = Normal (error_object (JString (js "Configuration Error")) (JString message)))
  /\ (opt_truthy API_KEY = true ->
      (forall e, fileToBase64 imageFile = Throw e ->
                 DirectService.identifyImage imageFile API_KEY generateContent = api_error e)
      /\ (forall base64 call,
             fileToBase64 imageFile = Normal base64 ->
             generateContent (the_string API_KEY)
               (Some (JString (mime_type_of imageFile))) (Some (JString base64)) = call ->
             (forall e, call = Throw e ->
                        DirectService.identifyImage imageFile API_KEY generateContent
                        = api_error e)
             /\ (call = Normal None ->
                 DirectService.identifyImage imageFile API_KEY generateContent
                 = api_error (ErrorObject (js "TypeError") (TypeErrorMessage (js "trim")))))).
Proof.
  intros api_error. unfold DirectService.identifyImage. split.
  - intros Hk otherFile otherModel. rewrite Hk. cbn [negb].
    split; [reflexivity | eexists; reflexivity].
  - intros Hk. rewrite Hk. cbn [negb]. split.
    + intros e Hf. rewrite Hf. cbn [bind try_catch]. now destruct e.
    + intros base64 call Hf Hc. rewrite Hf. cbn [bind]. rewrite Hc. split.
      * intros e ->. cbn [bind try_catch]. now destruct e.
      * intros ->. reflexivity.
Qed.

Lemma direct_failure_modes_witness :
  let failing : GenerateContent (E := LiteralEngine) :=
    fun _ _ _ => Throw (ErrorObject (js "Error") (js "quota exceeded")) in
  opt_truthy sample_key = true
  /\ fileToBase64 sample_file = Normal (js "AAAA")
  /\ DirectService.identifyImage (E := LiteralEngine) sample_file sample_key failing
     = Normal (error_object (JString (js "API Error"))
                 (JString (DirectService.api_error_prefix ++ js "quota exceeded")))
  /\ opt_truthy None = false
  /\ exists message,
       DirectService.identifyImage (E := LiteralEngine) sample_file None failing
       = Normal (error_object (JString (js "Configuration Error")) (JString message)).
Proof.
  intros failing.
  assert (Hf : fileToBase64 sample_file = Normal (js "AAAA")) by reflexivity.
  split; [reflexivity|]. split; [exact Hf|]. split; [|split; [reflexivity|]].
  - destruct (direct_failure_modes (E := LiteralEngine) sample_file sample_key failing)
      as [_ H].
    destruct (H eq_refl) as [_ H2].
    destruct (H2 (js "AAAA") _ Hf eq_refl) as [H3 _].
    exact (H3 _ eq_refl).
  - destruct (direct_failure_modes (E := LiteralEngine) sample_file None failing)
      as [H _].
    exact (proj2 (H eq_refl sample_file failing)).
Defined.

(* ================================================================== *)
(** * Further properties: the checks of the two handlers *)

Lemma opt_truthy_inv (k : option jstring) :
  opt_truthy k = true <-> exists s, k = Some s /\ s <> [].
Proof.
  split.
  - destruct k as [[|c s]|]; try discriminate. intros _. now exists (c :: s).
  - intros ([|c s] & -> & Hs); [contradiction|reflexivity].
Qed.

(** A body with two truthy members passes the check of the English
    handler. *)
Lemma parse_request_accepts {E : Engine} (event : HandlerEvent) (raw : jstring)
    (members : list (jstring * json)) :
  event_body event = Some raw -> raw <> [] ->
  parse_json raw = Some (JObject members) ->
  truthy (obj_get members (js "imageData")) = true ->
  truthy (obj_get members (js "mimeType")) = true ->
  Identify.parse_request event = Normal (JObject members).
Proof.
  intros Hraw Hne Hp Hi Hm. unfold Identify.parse_request, JSON_parse.
  rewrite Hraw. cbn [opt_truthy the_string]. destruct raw; [contradiction|].
  cbn [string_truthy negb]. rewrite Hp. cbn [bind get_property].
  now rewrite Hi, Hm.
Qed.

(** A body with two string members passes the check of the Lao
    handler. *)
Lemma parse_request_lo_accepts {E : Engine} (event : HandlerEvent) (raw : jstring)
    (members : list (jstring * json)) (imageData mimeType : jstring) :
  event_body event = Some raw -> raw <> [] ->
  parse_json raw = Some (JObject members) ->
  obj_get members (js "imageData") = Some (JString imageData) ->
  obj_get members (js "mimeType") = Some (JString mimeType) ->
  IdentifyLo.parse_request event
  = Normal {| IdentifyLo.imageData := imageData; IdentifyLo.mimeType := mimeType |}.
Proof.
  intros Hraw Hne Hp Hi Hm. unfold IdentifyLo.parse_request, JSON_parse.
  rewrite Hraw. cbn [opt_truthy the_string]. destruct raw; [contradiction|].
  cbn [string_truthy negb]. rewrite Hp. cbn [bind get_property].
  now rewrite Hi, Hm.
Qed.

(** X6.  The English handler accepts a request body exactly when it is a
    non-empty text that is JSON for an object whose [imageData] and
    [mimeType] members are both truthy (of any type), and then hands on
    the parsed object. *)
Theorem parse_request_accepts_truthy_fields {E : Engine} (event : HandlerEvent)
    (body : json) :
  Identify.parse_request event = Normal body <->
  exists raw members,
    event_body event = Some raw /\ raw <> []
    /\ parse_json raw = Some body /\ body = JObject members
    /\ truthy (obj_get members (js "imageData")) = true
    /\ truthy (obj_get members (js "mimeType")) = true.
Proof.
  split.
  - unfold Identify.parse_request, JSON_parse.
    destruct (opt_truthy (event_body event)) eqn:Hb; cbn [negb]; [|discriminate].
    apply opt_truthy_inv in Hb as (raw & Hraw & Hne). rewrite Hraw. cbn [the_string].
    destruct (parse_json raw) as [v|] eqn:Hp; cbn [bind]; [|discriminate].
    destruct v as [|bo|n|st|es|m]; cbn [get_property bind truthy negb]; try discriminate.
    destruct (truthy (obj_get m (js "imageData"))) eqn:Hi; cbn [negb]; [|discriminate].
    destruct (truthy (obj_get m (js "mimeType"))) eqn:Hm; cbn [negb]; [|discriminate].
    intros H. injection H as <-. now exists raw, m.
  - intros (raw & m & Hraw & Hne & Hp & -> & Hi & Hm).
    exact (parse_request_accepts event raw m Hraw Hne Hp Hi Hm).
Qed.

(** X7.  The Lao handler accepts a request body exactly when it is a
    non-empty text that is JSON for an object whose [imageData] and
    [mimeType] members are both strings (possibly empty), and then hands
    on those two strings. *)
Theorem parse_request_lo_accepts_strings {E : Engine} (event : HandlerEvent)
    (body : IdentifyLo.RequestBody) :
  IdentifyLo.parse_request event = Normal body <->
  exists raw members,
    event_body event = Some raw /\ raw <> []
    /\ parse_json raw = Some (JObject members)
    /\ obj_get members (js "imageData") = Some (JString (IdentifyLo.imageData body))
    /\ obj_get members (js "mimeType") = Some (JString (IdentifyLo.mimeType body)).
Proof.
  split.
  - unfold IdentifyLo.parse_request, JSON_parse.
    destruct (opt_truthy (event_body event)) eqn:Hb; cbn [negb]; [|discriminate].
    apply opt_truthy_inv in Hb as (raw & Hraw & Hne). rewrite Hraw. cbn [the_string].
    destruct (parse_json raw) as [v|] eqn:Hp; cbn [bind]; [|discriminate].
    destruct v as [|bo|n|st|es|m]; cbn [get_property bind]; try discriminate.
    destruct (obj_get m (js "imageData")) as [[| | |i| |]|] eqn:Hi; try discriminate.
    destruct (obj_get m (js "mimeType")) as [[| | |t| |]|] eqn:Hm; try discriminate.
    intros H. injection H as <-. now exists raw, m.
  - intros (raw & m & Hraw & Hne & Hp & Hi & Hm). destruct body as [i t].
    exact (parse_request_lo_accepts event raw m i t Hraw Hne Hp Hi Hm).
Qed.

(** X8.  On a request whose body is an object with a non-empty string
    [imageData] and a non-empty string [mimeType], each variant of the
    handler answers as a function of one thing only: what its own model
    call, made with its own prompt, returns for the key and the image
    part built from those two strings.  The two handlers send different
    prompts, so their model calls are unrelated; but the two functions
    agree at every outcome of the call: they answer the same status and,
    when that status is 200, the same response. *)
Theorem handlers_agree_on_typed_requests {E : Engine} (event : HandlerEvent)
    (API_KEY : option jstring)
    (raw imageData mimeType : jstring) (members : list (jstring * json)) :
  event_body event = Some raw -> raw <> [] ->
  parse_json raw = Some (JObject members) ->
  obj_get members (js "imageData") = Some (JString imageData) -> imageData <> [] ->
  obj_get members (js "mimeType") = Some (JString mimeType) -> mimeType <> [] ->
  exists respond respondLo : completion (option jstring) -> HandlerResponse,
    (forall generateContent : GenerateContent,
        Identify.handler event API_KEY generateContent
        = Normal (respond (generateContent (the_string API_KEY)
                             (Some (JString mimeType)) (Some (JString imageData)))))
    /\ (forall generateContentLo : GenerateContent,
           IdentifyLo.handler event API_KEY generateContentLo
           = Normal (respondLo (generateContentLo (the_string API_KEY)
                                  (Some (JString mimeType)) (Some (JString imageData)))))
    /\ (forall outcome,
           statusCode (respond outcome) = statusCode (respondLo outcome)
           /\ (statusCode (respond outcome) = 200 -> respond outcome = respondLo outcome))
    /\ (forall outcome,
           statusCode (respond outcome) = 200
           <-> httpMethod event = js "POST" /\ opt_truthy API_KEY = true
               /\ exists responseText parsedData,
                    outcome = Normal (Some responseText)
                    /\ parse_json (extractJson responseText) = Some parsedData).
Proof.
  intros Hraw Hne Hp Hi Hine Hm Hmne.
  assert (Hen : Identify.parse_request event = Normal (JObject members)).
  { apply (parse_request_accepts event raw members Hraw Hne Hp).
    - rewrite Hi. cbn [truthy]. now destruct imageData.
    - rewrite Hm. cbn [truthy]. now destruct mimeType. }
  assert (Hlo : IdentifyLo.parse_request event
                = Normal {| IdentifyLo.imageData := imageData;
                            IdentifyLo.mimeType := mimeType |}).
  { exact (parse_request_lo_accepts event raw members _ _ Hraw Hne Hp Hi Hm). }
  assert (Hpost : jstring_eqb (httpMethod event) (js "POST") = true
                  <-> httpMethod event = js "POST").
  { split; [apply jstring_eqb_eq | intros ->; apply jstring_eqb_refl]. }
  unfold Identify.handler, IdentifyLo.handler.
  destruct (jstring_eqb (httpMethod event) (js "POST")); cbn [negb].
  2:{ eexists (fun _ => _), (fun _ => _).
      split; [intros g; reflexivity|]. split; [intros g; reflexivity|].
      cbn [statusCode]. split.
      - intros outcome. split; [reflexivity | intros H; discriminate H].
      - intros outcome. split; [intros H; discriminate H|].
        intros (H & _). apply Hpost in H. discriminate H. }
  destruct (opt_truthy API_KEY); cbn [negb].
  2:{ eexists (fun _ => _), (fun _ => _).
      split; [intros g; reflexivity|]. split; [intros g; reflexivity|].
      cbn [statusCode]. split.
      - intros outcome. split; [reflexivity | intros H; discriminate H].
      - intros outcome. split; [intros H; discriminate H|].
        intros (_ & H & _). discriminate H. }
  rewrite Hen, Hlo. unfold Identify.identify, IdentifyLo.identify.
  cbn [get_property bind IdentifyLo.imageData IdentifyLo.mimeType].
  rewrite Hi, Hm. cbn [bind].
  exists (fun outcome =>
            match outcome with
            | Normal (Some responseText) =>
                match parse_json (extractJson responseText) with
                | Some parsedData =>
                    {| statusCode := 200; body := JSON_stringify parsedData;
                       headers := json_headers |}
                | None =>
                    {| statusCode := 500;
                       body := JSON_stringify
                                 (error_object (JString (js "AI Service Error"))
                                    (JString (SyntaxErrorMessage (extractJson responseText))));
                       headers := json_headers |}
                end
            | Normal None =>
                {| statusCode := 500;
                   body := JSON_stringify
                             (error_object (JString (js "AI Service Error"))
                                (JString (js "Invalid response format from AI: Text content is not a string.")));
                   headers := json_headers |}
            | Throw error =>
                {| statusCode := 500;
                   body := JSON_stringify
                             (error_object (JString (js "AI Service Error"))
                                (JString (error_message error
                                   (js "An unexpected error occurred during identification with the AI model."))));
                   headers := json_headers |}
            end).
  exists (fun outcome =>
            match outcome with
            | Normal (Some responseText) =>
                match parse_json (extractJson responseText) with
                | Some parsedData =>
                    {| statusCode := 200; body := JSON_stringify parsedData;
                       headers := json_headers |}
                | None =>
                    {| statusCode := 500;
                       body := JSON_stringify
                                 (error_object (JString (js "ຂໍ້ຜິດພາດຈາກບໍລິການ AI"))
                                    (JString (SyntaxErrorMessage (extractJson responseText))));
                       headers := json_headers |}
                end
            | Normal None =>
                {| statusCode := 500;
                   body := JSON_stringify
                             (error_object (JString (js "ຂໍ້ຜິດພາດຈາກບໍລິການ AI"))
                                (JString (js "Invalid response format from AI: Text content is not a string.")));
                   headers := json_headers |}
            | Throw error =>
                {| statusCode := 500;
                   body := JSON_stringify
                             (error_object (JString (js "ຂໍ້ຜິດພາດຈາກບໍລິການ AI"))
                                (JString (error_message error (js "ເກີດຂໍ້ຜິດພາດທີ່ບໍ່ຄາດຄິດໃນລະຫວ່າງການກວດສອບດ້ວຍແບບຈຳລອງ AI."))));
                   headers := json_headers |}
            end).
  split; [|split; [|split]].
  - intros g.
    destruct (g (the_string API_KEY) (Some (JString mimeType)) (Some (JString imageData)))
      as [[t|]|e]; cbn [bind try_catch]; try reflexivity.
    unfold JSON_parse. destruct (parse_json (extractJson t)); reflexivity.
  - intros g.
    destruct (g (the_string API_KEY) (Some (JString mimeType)) (Some (JString imageData)))
      as [[t|]|e]; cbn [bind try_catch]; try reflexivity.
    unfold JSON_parse. destruct (parse_json (extractJson t)); reflexivity.
  - intros [[t|]|e]; cbn [statusCode].
    + destruct (parse_json (extractJson t)); cbn [statusCode].
      * split; reflexivity.
      * split; [reflexivity | intros H; discriminate H].
    + split; [reflexivity | intros H; discriminate H].
    + split; [reflexivity | intros H; discriminate H].
  - intros [[t|]|e].
    + destruct (parse_json (extractJson t)) as [v|] eqn:Hv; cbn [statusCode].
      * split; [|reflexivity]. intros _.
        split; [now apply Hpost|]. split; [reflexivity|]. now exists t, v.
      * split; [intros H; discriminate H|].
        intros (_ & _ & t' & v' & Ht & Hv'). injection Ht as <-.
        rewrite Hv in Hv'. discriminate Hv'.
    + cbn [statusCode]. split; [intros H; discriminate H|].
      intros (_ & _ & t' & v' & Ht & _). discriminate Ht.
    + cbn [statusCode]. split; [intros H; discriminate H|].
      intros (_ & _ & t' & v' & Ht & _). discriminate Ht.
Qed.

Lemma handlers_agree_on_typed_requests_witness :
  let raw := jsq "{'imageData':'AAAA','mimeType':'image/png'}" in
  let text := jsq "{'name':'Fern','description':'A plant.'}" in
  let silent : GenerateContent (E := LiteralEngine) := fun _ _ _ => Normal None in
  event_body sample_event = Some raw /\ raw <> []
  /\ js "AAAA" <> [] /\ js "image/png" <> []
  /\ exists en lo,
       Identify.handler (E := LiteralEngine) sample_event sample_key (answers text) = Normal en
       /\ IdentifyLo.handler (E := LiteralEngine) sample_event sample_key silent = Normal lo
       /\ statusCode en = 200 /\ statusCode lo <> 200.
Proof.
  intros raw text silent.
  assert (H1 : raw <> []) by (vm_compute; discriminate).
  assert (H2 : js "AAAA" <> []) by (vm_compute; discriminate).
  assert (H3 : js "image/png" <> []) by (vm_compute; discriminate).
  split; [reflexivity|]. split; [exact H1|]. split; [exact H2|]. split; [exact H3|].
  destruct (handlers_agree_on_typed_requests (E := LiteralEngine) sample_event sample_key
              raw (js "AAAA") (js "image/png")
              [(js "imageData", JString (js "AAAA")); (js "mimeType", JString (js "image/png"))]
              eq_refl H1 eq_refl eq_refl H2 eq_refl H3)
    as (respond & respondLo & Hen & Hlo & Hsame & H200).
  exists (respond (Normal (Some text))), (respondLo (Normal None)).
  split; [exact (Hen (answers text))|]. split; [exact (Hlo silent)|].
  split.
  - apply H200. split; [reflexivity|]. split; [reflexivity|].
    eexists text, _. split; [reflexivity|]. vm_compute. reflexivity.
  - destruct (Hsame (Normal None)) as [<- _]. intros H. apply H200 in H.
    destruct H as (_ & _ & t & v & Ht & _). discriminate Ht.
Defined.

(** The second [try] block on an object: the model is called with the
    object's own members. *)
Lemma identify_outcome {E : Engine} (members : list (jstring * json)) (key : jstring)
    (generateContent : GenerateContent) :
  let failure (message : jstring) :=
    Normal {| statusCode := 500;
              body := JSON_stringify
                        (error_object (JString (js "AI Service Error")) (JString message));
              headers := json_headers |} in
  Identify.identify (JObject members) key generateContent
  = match generateContent key
            (obj_get members (js "mimeType")) (obj_get members (js "imageData")) with
    | Throw (ErrorObject _ message) => failure message
    | Throw NotAnError =>
        failure (js "An unexpected error occurred during identification with the AI model.")
    | Normal None =>
        failure (js "Invalid response format from AI: Text content is not a string.")
    | Normal (Some responseText) =>
        match parse_json (extractJson responseText) with
        | Some parsedData =>
            Normal {| statusCode := 200; body := JSON_stringify parsedData;
                      headers := json_headers |}
        | None => failure (SyntaxErrorMessage (extractJson responseText))
        end
    end.
Proof.
  intros failure. unfold Identify.identify. cbn [get_property bind].
  destruct (generateContent _ _ _) as [[t|]|[n m|]]; cbn [bind try_catch]; try reflexivity.
  unfold JSON_parse. now destruct (parse_json (extractJson t)).
Qed.

(** X9.  What the English handler answers after its three checks.  The
    model is called with the key and with the request's own [mimeType]
    and [imageData]; if the call throws, the answer is 500 "AI Service
    Error" with the message of the thrown [Error] or, for another thrown
    value, the generic sentence; if the response has no text, it is 500
    with "Invalid response format from AI: Text content is not a
    string."; if it has a text, the answer is 200 with the value of the
    extracted text, or 500 with the SyntaxError's message. *)
Theorem handler_after_checks {E : Engine} (event : HandlerEvent)
    (API_KEY : option jstring) (generateContent : GenerateContent)
    (members : list (jstring * json)) :
  httpMethod event = js "POST" -> opt_truthy API_KEY = true ->
  Identify.parse_request event = Normal (JObject members) ->
  let failure (message : jstring) :=
    Normal {| statusCode := 500;
              body := JSON_stringify
                        (error_object (JString (js "AI Service Error")) (JString message));
              headers := json_headers |} in
  Identify.handler event API_KEY generateContent
  = match generateContent (the_string API_KEY)
            (obj_get members (js "mimeType")) (obj_get members (js "imageData")) with
    | Throw (ErrorObject _ message) => failure message
    | Throw NotAnError =>
        failure (js "An unexpected error occurred during identification with the AI model.")
    | Normal None =>
        failure (js "Invalid response format from AI: Text content is not a string.")
    | Normal (Some responseText) =>
        match parse_json (extractJson responseText) with
        | Some parsedData =>
            Normal {| statusCode := 200; body := JSON_stringify parsedData;
                      headers := json_headers |}
        | None => failure (SyntaxErrorMessage (extractJson responseText))
        end
    end.
Proof.
  intros Hm Hk Hb failure.
  rewrite (handler_accepted _ _ _ _ Hm Hk Hb).
  exact (identify_outcome members (the_string API_KEY) generateContent).
Qed.

Lemma handler_after_checks_witness :
  let silent : GenerateContent (E := LiteralEngine) := fun _ _ _ => Normal None in
  httpMethod sample_event = js "POST" /\ opt_truthy sample_key = true
  /\ Identify.handler (E := LiteralEngine) sample_event sample_key silent
     = Normal {| statusCode := 500;
                 body := jsq "{'error':'AI Service Error','message':'Invalid response format from AI: Text content is not a string.'}";
                 headers := json_headers |}.
Proof.
  intros silent. split; [reflexivity|]. split; [reflexivity|].
  rewrite (handler_after_checks (E := LiteralEngine) sample_event sample_key silent
             [(js "imageData", JString (js "AAAA")); (js "mimeType", JString (js "image/png"))]
             eq_refl eq_refl eq_refl).
  vm_compute. reflexivity.
Defined.

(* ================================================================== *)
(** * Further properties: the two proxied clients *)

Lemma fileToBase64_lo (file : File) :
  match fileToBase64 file with
  | Normal base64 => ProxiedServiceLo.fileToBase64 file = Normal base64
  | Throw _ => exists e, ProxiedServiceLo.fileToBase64 file = Throw e
  end.
Proof.
  unfold fileToBase64, ProxiedServiceLo.fileToBase64.
  destruct (content file) as [result|]; [|now exists NotAnError].
  destruct (opt_truthy _); [reflexivity | eexists; reflexivity].
Qed.

Lemma client_error_lo_is_error {E : Engine} (m : json) :
  is_error (error_object (JString (js "ຂໍ້ຜິດພາດຝັ່ງລູກຄ້າ")) m) = true.
Proof. vm_compute. reflexivity. Qed.

(** X10.  The Lao and the English proxied client differ only in the
    texts they make up themselves.  On every file and every behaviour of
    [fetch] both resolve; both results are error objects or neither is;
    when they are not error objects they are the same value; and an error
    object sent by the server with a truthy [error] and a truthy
    [message] is returned by both with those two members unchanged. *)
Theorem proxied_variants_agree {E : Engine} (imageFile : File) (fetch : Fetch) :
  exists en lo,
    ProxiedService.identifyImage imageFile fetch = Normal en
    /\ ProxiedServiceLo.identifyImage imageFile fetch = Normal lo
    /\ is_error en = is_error lo
    /\ (is_error en = false -> en = lo)
    /\ (forall base64 response members,
           fileToBase64 imageFile = Normal base64 ->
           fetch ProxiedService.endpoint (ProxiedService.request imageFile base64)
           = Normal response ->
           ok response = false ->
           response_json response = Normal (JObject members) ->
           truthy (obj_get members (js "error")) = true ->
           truthy (obj_get members (js "message")) = true ->
           exists e m,
             obj_get members (js "error") = Some e
             /\ obj_get members (js "message") = Some m
             /\ en = error_object e m /\ lo = error_object e m).
Proof.
  unfold ProxiedService.identifyImage, ProxiedServiceLo.identifyImage.
  pose proof (fileToBase64_lo imageFile) as Hlo.
  destruct (fileToBase64 imageFile) as [b|e0] eqn:Hf.
  2:{ destruct Hlo as [e1 ->]. cbn [bind try_catch].
      eexists. eexists. split; [reflexivity|]. split; [reflexivity|].
      rewrite client_side_error_is_error, client_error_lo_is_error.
      split; [reflexivity|]. split; [intros H; discriminate H|]. intros; discriminate. }
  rewrite Hlo. cbn [bind].
  assert (Hsame : forall b' resp',
             Normal b = Normal b' ->
             fetch ProxiedService.endpoint (ProxiedService.request imageFile b')
             = Normal resp' ->
             fetch ProxiedService.endpoint (ProxiedService.request imageFile b)
             = Normal resp').
  { intros b' resp' Hb. now injection Hb as <-. }
  destruct (fetch ProxiedService.endpoint (ProxiedService.request imageFile b))
    as [resp|e1] eqn:Hr; cbn [bind try_catch].
  2:{ eexists. eexists. split; [reflexivity|]. split; [reflexivity|].
      rewrite client_side_error_is_error, client_error_lo_is_error.
      split; [reflexivity|]. split; [intros H; discriminate H|].
      intros b' resp' m Hb Hr2. discriminate (Hsame _ _ Hb Hr2). }
  assert (Hresp : forall b' resp', Normal b = Normal b' ->
             fetch ProxiedService.endpoint (ProxiedService.request imageFile b')
             = Normal resp' -> resp' = resp).
  { intros b' resp' Hb Hr2. pose proof (Hsame _ _ Hb Hr2) as H. now injection H. }
  clear Hsame.
  destruct (ok resp) eqn:Hok; cbn [negb].
  - destruct (response_json resp) as [v|e1] eqn:Hj; cbn [bind try_catch].
    + exists v, v. split; [reflexivity|]. split; [reflexivity|].
      split; [reflexivity|]. split; [reflexivity|].
      intros b' resp' m Hb Hr2 Hok2. rewrite (Hresp _ _ Hb Hr2), Hok in Hok2.
      discriminate Hok2.
    + eexists. eexists. split; [reflexivity|]. split; [reflexivity|].
      rewrite client_side_error_is_error, client_error_lo_is_error.
      split; [reflexivity|]. split; [intros H; discriminate H|].
      intros b' resp' m Hb Hr2 Hok2. rewrite (Hresp _ _ Hb Hr2), Hok in Hok2.
      discriminate Hok2.
  - destruct (response_json resp) as [v|e1] eqn:Hj; cbn [bind try_catch].
    + destruct v as [|bo|n|st|es|m]; cbn [get_property bind try_catch js_or].
      1:{ eexists. eexists. split; [reflexivity|]. split; [reflexivity|].
          rewrite client_side_error_is_error, client_error_lo_is_error.
          split; [reflexivity|]. split; [intros H; discriminate H|].
          intros b' resp' m Hb Hr2 _ Hj2. rewrite (Hresp _ _ Hb Hr2), Hj in Hj2.
          discriminate Hj2. }
      1-4: eexists; eexists; (split; [reflexivity|]); (split; [reflexivity|]);
           rewrite !is_error_error_object;
           (split; [vm_compute; reflexivity|]);
           (split; [intros H; vm_compute in H; discriminate H|]);
           intros b' resp' m Hb Hr2 _ Hj2; rewrite (Hresp _ _ Hb Hr2), Hj in Hj2;
           discriminate Hj2.
      eexists. eexists. split; [reflexivity|]. split; [reflexivity|].
      rewrite !is_error_error_object.
      assert (Hen : truthy (Some (js_or (obj_get m (js "error")) (JString (js "API Error"))))
                    = true) by (apply js_or_truthy; vm_compute; reflexivity).
      assert (Hl : truthy (Some (js_or (obj_get m (js "error")) (JString (js "ຂໍ້ຜິດພາດ API"))))
                   = true) by (apply js_or_truthy; vm_compute; reflexivity).
      rewrite Hen, Hl. split; [reflexivity|]. split; [intros H; discriminate H|].
      intros b' resp' m' Hb Hr2 _ Hj2 He Hmsg.
      rewrite (Hresp _ _ Hb Hr2), Hj in Hj2. injection Hj2 as <-.
      unfold js_or. rewrite He, Hmsg.
      destruct (obj_get m (js "error")) as [e|]; [|discriminate He].
      destruct (obj_get m (js "message")) as [msg|]; [|discriminate Hmsg].
      now exists e, msg.
    + rewrite !error_object_error, !error_object_message.
      cbn [bind try_catch].
      eexists. eexists. split; [reflexivity|]. split; [reflexivity|].
      rewrite !is_error_error_object.
      assert (Hen : forall a, truthy (Some (js_or a (JString (js "API Error")))) = true)
        by (intros a; apply js_or_truthy; vm_compute; reflexivity).
      assert (Hl : forall a, truthy (Some (js_or a (JString (js "ຂໍ້ຜິດພາດ API")))) = true)
        by (intros a; apply js_or_truthy; vm_compute; reflexivity).
      rewrite Hen, Hl. split; [reflexivity|]. split; [intros H; discriminate H|].
      intros b' resp' m' Hb Hr2 _ Hj2. rewrite (Hresp _ _ Hb Hr2), Hj in Hj2.
      discriminate Hj2.
Qed.

(* ================================================================== *)
(** * Further properties: the page *)

Lemma act_keeps_store {E : Engine} (identifyImage : File -> completion json)
    (a : App.action) (sb : App.State * App.UrlStore) :
  store_matches sb -> store_matches (App.act identifyImage a sb).
Proof.
  destruct sb as [st b]. unfold store_matches. cbn [fst snd].
  intros (Hl & Hn & Hi). destruct a as [file|]; cbn [App.act fst snd].
  - unfold App.handleImageSelected, App.createObjectURL, App.cleanup, App.revokeObjectURL.
    destruct (App.previewUrl st) as [u|] eqn:Hp;
      cbn [App.live App.next App.previewUrl App.isLoading fst snd].
    + rewrite Hl. cbn [List.remove]. destruct (Nat.eq_dec u u) as [_|Hc]; [|contradiction].
      cbn [List.remove].
      assert (Hu : (u < App.next b)%nat) by (apply Hn; rewrite Hl; now left).
      destruct (Nat.eq_dec u (App.next b)) as [Hc|_]; [lia|].
      split; [reflexivity|]. split; [|exact Hi].
      intros v [<-|[]]. lia.
    + rewrite Hl. split; [reflexivity|]. split; [|exact Hi].
      intros v [<-|[]]. lia.
  - unfold App.handleScanImage.
    destruct (App.selectedFile st); cbn [App.previewUrl App.isLoading]; auto.
Qed.

(** X11.  Whatever files the user selects and whenever a scan is run,
    and whatever the client does (even if its promise were to reject),
    after each action the loading flag is off and the only object URL
    still alive is the one of the preview on display; when the page is
    removed no object URL is left alive. *)
Theorem page_releases_object_urls {E : Engine} (identifyImage : File -> completion json)
    (actions : list App.action) :
  let sb := App.run identifyImage actions in
  App.live (snd sb) = match App.previewUrl (fst sb) with Some u => [u] | None => [] end
  /\ App.isLoading (fst sb) = false
  /\ App.live (App.unmount sb) = [].
Proof.
  intros sb.
  assert (H : store_matches sb).
  { unfold sb, App.run.
    assert (H0 : store_matches (App.initial, {| App.live := []; App.next := 0 |})).
    { unfold store_matches. cbn. split; [reflexivity|]. split; [intros u []|reflexivity]. }
    revert H0. generalize (App.initial, {| App.live := []; App.next := 0 |}).
    induction actions as [|a actions IH]; intros sb0 H0; [exact H0|].
    cbn [fold_left]. apply IH. now apply act_keeps_store. }
  destruct H as (Hl & _ & Hi). split; [exact Hl|]. split; [exact Hi|].
  unfold App.unmount, App.cleanup. destruct (App.previewUrl (fst sb)) as [u|]; [|exact Hl].
  unfold App.revokeObjectURL. cbn [App.live]. rewrite Hl. cbn [List.remove].
  now destruct (Nat.eq_dec u u).
Qed.

(** X12.  A scan with the proxied client always ends with a result in
    the result slot: the page's own "Client Error" fallback is never
    used, the slot holds what [identifyImage] resolved to (it stays empty
    only for the value [null]), and the file and the preview are kept.
    Selecting a file empties the slot. *)
Theorem scan_stores_client_result {E : Engine} (fetch : Fetch) (st : App.State)
    (b : App.UrlStore) (file : File) :
  (App.selectedFile st = Some file ->
   exists result,
     ProxiedService.identifyImage file fetch = Normal result
     /\ App.handleScanImage (fun f => ProxiedService.identifyImage f fetch) st
        = {| App.selectedFile := Some file; App.previewUrl := App.previewUrl st;
             App.isLoading := false;
             App.scanResult := match result with JNull => None | _ => Some result end |})
  /\ (App.selectedFile st = None ->
      App.handleScanImage (fun f => ProxiedService.identifyImage f fetch) st = st)
  /\ App.scanResult (fst (App.handleImageSelected file st b)) = None
  /\ App.selectedFile (fst (App.handleImageSelected file st b)) = Some file.
Proof.
  split; [|split; [|split]].
  - intros Hs. destruct (proxied_outcome file fetch) as (result & Hres & _).
    exists result. split; [exact Hres|]. unfold App.handleScanImage.
    now rewrite Hs, Hres.
  - intros Hs. unfold App.handleScanImage. now rewrite Hs.
  - unfold App.handleImageSelected. now destruct (App.previewUrl st).
  - unfold App.handleImageSelected. now destruct (App.previewUrl st).
Qed.

(* ================================================================== *)
(** * Further properties: what travels between client and handler *)

Lemma hex_value_digit (d : N) : d < 16 -> hex_value (hex_digit d) = Some d.
Proof.
  intros H. destruct d as [|p]; [reflexivity|].
  do 4 (destruct p as [p|p|]; try reflexivity); lia.
Qed.

Lemma hex_recompose (c : N) :
  c < 65536 ->
  ((c / 4096 mod 16 * 16 + c / 256 mod 16) * 16 + c / 16 mod 16) * 16 + c mod 16 = c.
Proof.
  intros H.
  pose proof (N.div_mod c 16 ltac:(lia)) as H0.
  pose proof (N.div_mod (c / 16) 16 ltac:(lia)) as H1.
  pose proof (N.div_mod (c / 16 / 16) 16 ltac:(lia)) as H2.
  rewrite N.Div0.div_div in H1, H2. rewrite N.Div0.div_div in H2.
  change (16 * 16) with 256 in *. change (256 * 16) with 4096 in *.
  assert (H3 : c / 4096 < 16) by (apply N.Div0.div_lt_upper_bound; lia).
  rewrite (N.mod_small (c / 4096) 16 H3). lia.
Qed.

(** The lexer reads back a character that needs no escape. *)
Lemma lex_string_plain (c : N) (X : jstring) :
  0x20 <= c -> c <> 0x22 -> c <> 0x5C ->
  lex_string (c :: X)
  = match lex_string X with
    | Some (v, n) => Some (c :: v, S n)
    | None => None
    end.
Proof.
  intros H1 H2 H3. cbn [lex_string].
  destruct (N.eqb_spec c 0x22); [contradiction|].
  destruct (N.eqb_spec c 0x5C); [contradiction|].
  destruct (N.ltb_spec c 0x20); [lia|]. reflexivity.
Qed.

(** The lexer reads back a [\uXXXX] escape. *)
Lemma lex_string_unicode_escape (c : N) (X v : jstring) (n : nat) :
  c < 65536 -> lex_string X = Some (v, n) ->
  lex_string (unicode_escape c ++ X) = Some (c :: v, (6 + n)%nat).
Proof.
  intros Hc HX. unfold unicode_escape.
  pose proof (hex_value_digit (c / 4096 mod 16) (N.mod_lt (c / 4096) 16 ltac:(lia))) as E1.
  pose proof (hex_value_digit (c / 256 mod 16) (N.mod_lt (c / 256) 16 ltac:(lia))) as E2.
  pose proof (hex_value_digit (c / 16 mod 16) (N.mod_lt (c / 16) 16 ltac:(lia))) as E3.
  pose proof (hex_value_digit (c mod 16) (N.mod_lt (c) 16 ltac:(lia))) as E4.
  pose proof (hex_recompose c Hc) as Er.
  revert E1 E2 E3 E4 Er.
  generalize (c / 4096 mod 16) (c / 256 mod 16) (c / 16 mod 16) (c mod 16).
  intros d1 d2 d3 d4 E1 E2 E3 E4 Er.
  generalize dependent (hex_digit d1). generalize dependent (hex_digit d2).
  generalize dependent (hex_digit d3). generalize dependent (hex_digit d4).
  intros h4 E4 h3 E3 h2 E2 h1 E1.
  cbn [app].
  change (lex_string (0x5C :: 0x75 :: h1 :: h2 :: h3 :: h4 :: X))
    with (match hex_value h1, hex_value h2, hex_value h3, hex_value h4 with
          | Some a, Some b, Some c', Some d =>
              match lex_string X with
              | Some (v, n) => Some (((a * 16 + b) * 16 + c') * 16 + d :: v, (6 + n)%nat)
              | None => None
              end
          | _, _, _, _ => None
          end).
  now rewrite E1, E2, E3, E4, HX, Er.
Qed.

Lemma lex_string_escape (e d : N) (X v : jstring) (n : nat) :
  In (e, d) [(0x22, 0x22); (0x5C, 0x5C); (0x62, 0x8); (0x66, 0xC);
             (0x6E, 0xA); (0x72, 0xD); (0x74, 0x9)] ->
  lex_string X = Some (v, n) ->
  lex_string (0x5C :: e :: X) = Some (d :: v, (2 + n)%nat).
Proof.
  intros Hin HX.
  repeat (destruct Hin as [Hin|Hin];
          [injection Hin as <- <-; cbn [lex_string]; rewrite HX; reflexivity|]).
  contradiction.
Qed.

(** The lexer reads back what [quote_unit] writes. *)
Lemma lex_string_quote_unit (c : N) (X v : jstring) (n : nat) :
  lex_string X = Some (v, n) ->
  lex_string (quote_unit c ++ X) = Some (c :: v, (length (quote_unit c) + n)%nat).
Proof.
  intros HX. unfold quote_unit.
  destruct (N.eqb_spec c 0x8) as [->|H1];
    [apply (lex_string_escape 0x62 0x8); [cbn; tauto | exact HX]|].
  destruct (N.eqb_spec c 0x9) as [->|H2];
    [apply (lex_string_escape 0x74 0x9); [cbn; tauto | exact HX]|].
  destruct (N.eqb_spec c 0xA) as [->|H3];
    [apply (lex_string_escape 0x6E 0xA); [cbn; tauto | exact HX]|].
  destruct (N.eqb_spec c 0xC) as [->|H4];
    [apply (lex_string_escape 0x66 0xC); [cbn; tauto | exact HX]|].
  destruct (N.eqb_spec c 0xD) as [->|H5];
    [apply (lex_string_escape 0x72 0xD); [cbn; tauto | exact HX]|].
  destruct (N.eqb_spec c 0x22) as [->|H6];
    [apply (lex_string_escape 0x22 0x22); [cbn; tauto | exact HX]|].
  destruct (N.eqb_spec c 0x5C) as [->|H7];
    [apply (lex_string_escape 0x5C 0x5C); [cbn; tauto | exact HX]|].
  destruct (N.ltb_spec c 0x20) as [H8|H8].
  - apply lex_string_unicode_escape; [lia | exact HX].
  - cbn [app length]. rewrite (lex_string_plain c X H8 H6 H7), HX. reflexivity.
Qed.

(** The lexer reads back what [quote_units] writes, whatever the
    string: [JSON.parse] undoes the quoting of [JSON.stringify]. *)
Lemma lex_string_quote_units (s X v : jstring) (n : nat) :
  lex_string X = Some (v, n) ->
  lex_string (quote_units s ++ X) = Some (s ++ v, (length (quote_units s) + n)%nat).
Proof.
  intros HX.
  assert (H : forall k s, (length s <= k)%nat ->
              lex_string (quote_units s ++ X)
              = Some (s ++ v, (length (quote_units s) + n)%nat)).
  { clear s. induction k as [|k IH]; intros s Hk.
    - destruct s; [exact HX | simpl in Hk; lia].
    - destruct s as [|c s]; [exact HX|]. simpl in Hk.
      assert (Hesc : forall Y w m,
                 is_high_surrogate c || is_low_surrogate c = true ->
                 lex_string Y = Some (w, m) ->
                 lex_string (unicode_escape c ++ Y) = Some (c :: w, (6 + m)%nat)).
      { intros Y w m Hs HY. apply lex_string_unicode_escape; [|exact HY].
        unfold is_high_surrogate, is_low_surrogate in Hs.
        apply orb_true_iff in Hs as [Hs|Hs]; apply andb_true_iff in Hs as [_ Hs];
          apply N.leb_le in Hs; lia. }
      assert (Hplain : forall Y,
                 is_high_surrogate c || is_low_surrogate c = true ->
                 lex_string (c :: Y)
                 = match lex_string Y with
                   | Some (w, m) => Some (c :: w, S m)
                   | None => None
                   end).
      { intros Y Hs. unfold is_high_surrogate, is_low_surrogate in Hs.
        apply orb_true_iff in Hs as [Hs|Hs]; apply andb_true_iff in Hs as [Hs _];
          apply N.leb_le in Hs; apply lex_string_plain; lia. }
      cbn [quote_units].
      destruct (is_high_surrogate c) eqn:Hh.
      + destruct s as [|d s].
        * rewrite (Hesc X v n eq_refl HX). reflexivity.
        * simpl in Hk. destruct (is_low_surrogate d) eqn:Hl.
          -- cbn [app].
             rewrite (Hplain _ eq_refl).
             assert (Hd : lex_string (d :: quote_units s ++ X)
                          = match lex_string (quote_units s ++ X) with
                            | Some (w, m) => Some (d :: w, S m)
                            | None => None
                            end).
             { unfold is_low_surrogate in Hl. apply andb_true_iff in Hl as [Hl _].
               apply N.leb_le in Hl. apply lex_string_plain; lia. }
             rewrite Hd, (IH s) by lia. cbn [length]. do 2 f_equal; try lia.
          -- rewrite <- app_assoc.
             rewrite (Hesc _ _ _ eq_refl (IH (d :: s) ltac:(simpl; lia))).
             rewrite length_app. cbn [length unicode_escape]. do 2 f_equal; try lia.
      + destruct (is_low_surrogate c) eqn:Hl.
        * rewrite <- app_assoc.
          rewrite (Hesc _ _ _ eq_refl (IH s ltac:(lia))).
          rewrite length_app. cbn [length unicode_escape]. do 2 f_equal; try lia.
        * rewrite <- app_assoc.
          rewrite (lex_string_quote_unit c _ _ _ (IH s ltac:(lia))).
          rewrite length_app. do 2 f_equal; try lia. }
  exact (H (length s) s (le_n _)).
Qed.

Lemma tokenize_skip {E : Engine} (a rest : jstring) :
  tokenize (length a) (a ++ rest) = tokenize 0 rest.
Proof. induction a as [|c a IH]; [reflexivity | exact IH]. Qed.

(** The tokenizer reads a quoted string back as one string token. *)
Lemma tokenize_quoted {E : Engine} (s rest : jstring) :
  tokenize 0 (QuoteJSONString s ++ rest)
  = match tokenize 0 rest with
    | Some ts => Some (TString s :: ts)
    | None => None
    end.
Proof.
  unfold QuoteJSONString. cbn [app]. rewrite <- app_assoc. cbn [app].
  assert (Hl : lex_string (quote_units s ++ 0x22 :: rest)
               = Some (s ++ [], (length (quote_units s) + 1)%nat))
    by (apply lex_string_quote_units; reflexivity).
  rewrite app_nil_r in Hl.
  assert (Hs : tokenize (length (quote_units s) + 1) (quote_units s ++ 0x22 :: rest)
               = tokenize 0 rest).
  { rewrite <- (tokenize_skip (quote_units s ++ [0x22]) rest).
    rewrite length_app, <- app_assoc. reflexivity. }
  cbn [tokenize]. change (is_json_ws 0x22) with false. cbv iota.
  unfold next_token.
  change (0x22 =? 0x7B) with false. change (0x22 =? 0x7D) with false.
  change (0x22 =? 0x5B) with false. change (0x22 =? 0x5D) with false.
  change (0x22 =? 0x3A) with false. change (0x22 =? 0x2C) with false.
  change (0x22 =? 0x22) with true. cbv iota.
  rewrite Hl. cbn [pred]. rewrite Hs. reflexivity.
Qed.

Lemma tokenize_punctuation {E : Engine} (c : N) (t : token) (rest : jstring) :
  In (c, t) [(0x7B, TLBrace); (0x7D, TRBrace); (0x3A, TColon); (0x2C, TComma)] ->
  tokenize 0 (c :: rest)
  = match tokenize 0 rest with
    | Some ts => Some (t :: ts)
    | None => None
    end.
Proof.
  intros Hin.
  repeat (destruct Hin as [Hin|Hin]; [injection Hin as <- <-; reflexivity|]).
  contradiction.
Qed.

(** [JSON.stringify] of an object with two string members whose keys are
    not array indices. *)
Lemma stringify_two_strings {E : Engine} (k1 k2 s1 s2 : jstring) :
  array_index k1 = None -> array_index k2 = None ->
  JSON_stringify (JObject [(k1, JString s1); (k2, JString s2)])
  = 0x7B :: QuoteJSONString k1 ++ 0x3A :: QuoteJSONString s1
         ++ 0x2C :: QuoteJSONString k2 ++ 0x3A :: QuoteJSONString s2 ++ [0x7D].
Proof.
  intros H1 H2. cbn [JSON_stringify map fst snd]. unfold own_properties.
  cbn [fold_left filter fst]. rewrite H1, H2. cbn [map app join_comma fst snd].
  repeat (rewrite <- app_assoc || rewrite <- app_comm_cons). reflexivity.
Qed.

(** [JSON.parse] undoes [JSON.stringify] on such an object, whatever
    the two strings. *)
Lemma two_strings_round_trip {E : Engine} (k1 k2 s1 s2 : jstring) :
  array_index k1 = None -> array_index k2 = None -> k2 <> k1 ->
  parse_json (JSON_stringify (JObject [(k1, JString s1); (k2, JString s2)]))
  = Some (JObject [(k1, JString s1); (k2, JString s2)]).
Proof.
  intros H1 H2 Hk. rewrite (stringify_two_strings _ _ _ _ H1 H2).
  unfold parse_json.
  rewrite (tokenize_punctuation 0x7B TLBrace) by (cbn; tauto).
  rewrite tokenize_quoted.
  rewrite (tokenize_punctuation 0x3A TColon) by (cbn; tauto).
  rewrite tokenize_quoted.
  rewrite (tokenize_punctuation 0x2C TComma) by (cbn; tauto).
  rewrite tokenize_quoted.
  rewrite (tokenize_punctuation 0x3A TColon) by (cbn; tauto).
  rewrite tokenize_quoted.
  cbn [app]. rewrite (tokenize_punctuation 0x7D TRBrace) by (cbn; tauto).
  cbn [tokenize]. unfold parse_tokens.
  cbn [run step begin_value begin_member scalar deliver obj_set].
  apply jstring_eqb_neq in Hk. now rewrite Hk.
Qed.

Lemma wire_keys :
  array_index (js "imageData") = None /\ array_index (js "mimeType") = None
  /\ js "mimeType" <> js "imageData"
  /\ array_index (js "error") = None /\ array_index (js "message") = None
  /\ js "message" <> js "error".
Proof. vm_compute. repeat split; try reflexivity; discriminate. Qed.

Lemma mime_type_of_truthy (imageFile : File) :
  string_truthy (mime_type_of imageFile) = true.
Proof.
  unfold mime_type_of. destruct (string_truthy (type imageFile)) eqn:H; [exact H|].
  vm_compute. reflexivity.
Qed.

Lemma fileToBase64_nonempty (file : File) (base64 : jstring) :
  fileToBase64 file = Normal base64 -> base64 <> [].
Proof.
  unfold fileToBase64. destruct (content file) as [result|]; [|discriminate].
  destruct (nth_error (split 0x2C result) 1) as [[|c b]|];
    cbn [opt_truthy string_truthy the_string]; try discriminate.
  intros H. injection H as <-. discriminate.
Qed.

(** The body of the client's request parses back to the object it was
    made from. *)
Lemma client_request_body {E : Engine} (imageFile : File) (base64 : jstring) :
  let members := [(js "imageData", JString base64);
                  (js "mimeType", JString (mime_type_of imageFile))] in
  let raw := init_body (ProxiedService.request imageFile base64) in
  raw <> [] /\ parse_json raw = Some (JObject members)
  /\ obj_get members (js "imageData") = Some (JString base64)
  /\ obj_get members (js "mimeType") = Some (JString (mime_type_of imageFile)).
Proof.
  intros members raw.
  destruct wire_keys as (K1 & K2 & K3 & _).
  split; [|split; [|split]].
  - unfold raw, ProxiedService.request. cbn [init_body].
    rewrite (stringify_two_strings _ _ _ _ K1 K2). discriminate.
  - exact (two_strings_round_trip _ _ base64 (mime_type_of imageFile) K1 K2 K3).
  - vm_compute. reflexivity.
  - unfold members. cbn [obj_get].
    replace (jstring_eqb (js "mimeType") (js "imageData")) with false
      by (vm_compute; reflexivity).
    now rewrite jstring_eqb_refl.
Qed.

Lemma client_request_parses {E : Engine} (imageFile : File) (base64 : jstring) :
  fileToBase64 imageFile = Normal base64 ->
  Identify.parse_request (event_of_request (ProxiedService.request imageFile base64))
  = Normal (JObject [(js "imageData", JString base64);
                     (js "mimeType", JString (mime_type_of imageFile))]).
Proof.
  intros Hf. destruct (client_request_body imageFile base64) as (Hraw & Hrt & G1 & G2).
  pose proof (fileToBase64_nonempty _ _ Hf) as Hb.
  apply (parse_request_accepts
           (event_of_request (ProxiedService.request imageFile base64))
           (init_body (ProxiedService.request imageFile base64)) _ eq_refl Hraw Hrt).
  - rewrite G1. cbn [truthy]. now destruct base64.
  - rewrite G2. cbn [truthy]. apply mime_type_of_truthy.
Qed.

(** X13.  The request the proxied client builds passes the checks of
    both handlers: its method is POST, and its body parses back to an
    object whose [imageData] is the file's base64 payload and whose
    [mimeType] is the file's type (or image/jpeg), so a client request is
    never answered 405 or 400. *)
Theorem client_request_is_accepted {E : Engine} (imageFile : File) (base64 : jstring) :
  fileToBase64 imageFile = Normal base64 ->
  let event := event_of_request (ProxiedService.request imageFile base64) in
  httpMethod event = js "POST"
  /\ Identify.parse_request event
     = Normal (JObject [(js "imageData", JString base64);
                        (js "mimeType", JString (mime_type_of imageFile))])
  /\ IdentifyLo.parse_request event
     = Normal {| IdentifyLo.imageData := base64;
                 IdentifyLo.mimeType := mime_type_of imageFile |}.
Proof.
  intros Hf event.
  destruct (client_request_body imageFile base64) as (Hraw & Hrt & G1 & G2).
  split; [reflexivity|]. split.
  - exact (client_request_parses imageFile base64 Hf).
  - exact (parse_request_lo_accepts event
             (init_body (ProxiedService.request imageFile base64)) _ _ _
             eq_refl Hraw Hrt G1 G2).
Qed.

Lemma client_request_is_accepted_witness :
  fileToBase64 sample_file = Normal (js "AAAA")
  /\ Identify.parse_request (E := LiteralEngine)
       (event_of_request (ProxiedService.request (E := LiteralEngine) sample_file (js "AAAA")))
     = Normal (JObject [(js "imageData", JString (js "AAAA"));
                        (js "mimeType", JString (js "image/png"))]).
Proof.
  assert (Hf : fileToBase64 sample_file = Normal (js "AAAA")) by reflexivity.
  split; [exact Hf|].
  exact (proj1 (proj2 (client_request_is_accepted (E := LiteralEngine)
                         sample_file (js "AAAA") Hf))).
Defined.

Lemma error_object_round_trip {E : Engine} (code message : jstring) :
  JSON_parse (JSON_stringify (error_object (JString code) (JString message)))
  = Normal (error_object (JString code) (JString message)).
Proof.
  destruct wire_keys as (_ & _ & _ & K1 & K2 & K3).
  unfold JSON_parse, error_object.
  now rewrite (two_strings_round_trip _ _ code message K1 K2 K3).
Qed.

Lemma error_object_members {E : Engine} (e m : json) :
  obj_get [(js "error", e); (js "message", m)] (js "error") = Some e
  /\ obj_get [(js "error", e); (js "message", m)] (js "message") = Some m.
Proof. vm_compute. split; reflexivity. Qed.

(** What the client makes of a non-2xx response whose JSON is an error
    object. *)
Lemma proxied_error_answer {E : Engine} (imageFile : File) (fetch : Fetch)
    (base64 : jstring) (response : Response) (code message : jstring) :
  fileToBase64 imageFile = Normal base64 ->
  fetch ProxiedService.endpoint (ProxiedService.request imageFile base64) = Normal response ->
  ok response = false ->
  response_json response = Normal (error_object (JString code) (JString message)) ->
  code <> [] ->
  ProxiedService.identifyImage imageFile fetch
  = Normal (error_object (JString code)
              (JString (message_or_status message (status response)))).
Proof.
  intros Hf Hr Hok Hj Hc.
  rewrite (proxied_answer _ _ _ _ Hf Hr), Hok, Hj.
  unfold error_object at 1.
  destruct (error_object_members (JString code) (JString message)) as [-> ->].
  unfold js_or, message_or_status, ProxiedService.request_failed. cbn [truthy].
  destruct code; [contradiction|]. cbn [string_truthy].
  now destruct (string_truthy message).
Qed.

(** X14.  An error answer of the server reaches the page intact.  When
    the response is not 2xx and its body is the serialisation of an
    error object with a non-empty code, the proxied client returns that
    code and that message; only an empty message is replaced, by
    "Request failed with status " and the status. *)
Theorem server_error_reaches_page {E : Engine} (imageFile : File) (fetch : Fetch)
    (base64 : jstring) (response : Response) (code message : jstring) :
  fileToBase64 imageFile = Normal base64 ->
  fetch ProxiedService.endpoint (ProxiedService.request imageFile base64) = Normal response ->
  ok response = false ->
  text response
  = Normal (JSON_stringify (error_object (JString code) (JString message))) ->
  code <> [] ->
  ProxiedService.identifyImage imageFile fetch
  = Normal (error_object (JString code)
              (JString (message_or_status message (status response)))).
Proof.
  intros Hf Hr Hok Ht Hc.
  apply (proxied_error_answer imageFile fetch base64 response code message Hf Hr Hok);
    [|exact Hc].
  unfold response_json. rewrite Ht. cbn [bind]. apply error_object_round_trip.
Qed.

Lemma server_error_reaches_page_witness :
  let answer :=
    {| status := 500;
       text := Normal (jsq "{'error':'Configuration Error','message':'API Key is not configured on the server.'}") |} in
  let fetch : Fetch := fun _ _ => Normal answer in
  fileToBase64 sample_file = Normal (js "AAAA")
  /\ ok answer = false
  /\ js "Configuration Error" <> []
  /\ ProxiedService.identifyImage (E := LiteralEngine) sample_file fetch
     = Normal (error_object (JString (js "Configuration Error"))
                 (JString (js "API Key is not configured on the server."))).
Proof.
  intros answer fetch.
  assert (Hf : fileToBase64 sample_file = Normal (js "AAAA")) by reflexivity.
  assert (Hc : js "Configuration Error" <> []) by (vm_compute; discriminate).
  split; [exact Hf|]. split; [reflexivity|]. split; [exact Hc|].
  rewrite (server_error_reaches_page (E := LiteralEngine) sample_file fetch (js "AAAA")
             answer (js "Configuration Error")
             (js "API Key is not configured on the server.") Hf eq_refl eq_refl);
    [vm_compute; reflexivity | vm_compute; reflexivity | exact Hc].
Defined.

Lemma served_response {E : Engine} (handler : HandlerEvent -> completion HandlerResponse)
    (url : jstring) (init : RequestInit) (r : HandlerResponse) :
  handler (event_of_request init) = Normal r ->
  served_by handler url init = Normal (response_of r).
Proof. intros H. unfold served_by. now rewrite H. Qed.

(** The page's view of an error answer with status 500. *)
Lemma page_sees_failure {E : Engine} (imageFile : File) (base64 : jstring)
    (handler : HandlerEvent -> completion HandlerResponse) (code message : jstring) :
  fileToBase64 imageFile = Normal base64 ->
  handler (event_of_request (ProxiedService.request imageFile base64))
  = Normal {| statusCode := 500;
              body := JSON_stringify (error_object (JString code) (JString message));
              headers := json_headers |} ->
  code <> [] ->
  ProxiedService.identifyImage imageFile (served_by handler)
  = Normal (error_object (JString code) (JString (message_or_status message 500))).
Proof.
  intros Hf Hh Hc.
  apply (proxied_error_answer imageFile (served_by handler) base64 _ code message
           Hf (served_response handler _ _ _ Hh) eq_refl); [|exact Hc].
  unfold response_json, response_of. cbn [text body bind].
  apply error_object_round_trip.
Qed.

(** X15.  From the page to the model and back, through the English
    handler.  For a file that can be encoded, the result of the proxied
    client is: without a server key, the "Configuration Error" object;
    with a key, the model is called with the key, the file's type and its
    payload, and a thrown exception, a response without text or a text
    that is not JSON gives the "AI Service Error" object with the same
    message as the handler chose, except that an empty message is
    replaced by "Request failed with status 500"; a text that is JSON
    for a value gives what [JSON.parse] makes of the serialisation of
    that value. *)
Theorem page_to_model_and_back {E : Engine} (imageFile : File)
    (API_KEY : option jstring) (generateContent : GenerateContent) (base64 : jstring) :
  fileToBase64 imageFile = Normal base64 ->
  let failure (code message : jstring) :=
    Normal (error_object (JString code) (JString (message_or_status message 500))) in
  ProxiedService.identifyImage imageFile
    (served_by (fun event => Identify.handler event API_KEY generateContent))
  = if opt_truthy API_KEY then
      match generateContent (the_string API_KEY)
              (Some (JString (mime_type_of imageFile))) (Some (JString base64)) with
      | Throw (ErrorObject _ message) => failure (js "AI Service Error") message
      | Throw NotAnError =>
          failure (js "AI Service Error")
            (js "An unexpected error occurred during identification with the AI model.")
      | Normal None =>
          failure (js "AI Service Error")
            (js "Invalid response format from AI: Text content is not a string.")
      | Normal (Some responseText) =>
          match parse_json (extractJson responseText) with
          | None =>
              failure (js "AI Service Error") (SyntaxErrorMessage (extractJson responseText))
          | Some parsedData =>
              match JSON_parse (JSON_stringify parsedData) with
              | Normal result => Normal result
              | Throw e =>
                  Normal (error_object (JString (js "Client-Side Error"))
                            (JString (error_message e ProxiedService.unexpected)))
              end
          end
      end
    else failure (js "Configuration Error") (js "API Key is not configured on the server.").
Proof.
  intros Hf failure.
  pose proof (client_request_parses imageFile base64 Hf) as Hreq.
  assert (Hm : httpMethod (event_of_request (ProxiedService.request imageFile base64))
               = js "POST") by reflexivity.
  assert (Hai : js "AI Service Error" <> []) by (vm_compute; discriminate).
  destruct (opt_truthy API_KEY) eqn:Hk.
  - pose proof (handler_accepted _ API_KEY generateContent _ Hm Hk Hreq) as Hh.
    rewrite identify_outcome in Hh.
    destruct (client_request_body imageFile base64) as (_ & _ & G1 & G2).
    cbv zeta in G1, G2. rewrite G1, G2 in Hh. clear G1 G2.
    destruct (generateContent (the_string API_KEY)
                (Some (JString (mime_type_of imageFile))) (Some (JString base64)))
      as [[t|]|[n m|]].
    + destruct (parse_json (extractJson t)) as [v|].
      * rewrite (proxied_answer imageFile _ base64 _ Hf
                   (served_response
                      (fun event => Identify.handler event API_KEY generateContent)
                      _ _ _ Hh)).
        reflexivity.
      * exact (page_sees_failure imageFile base64
                 (fun event => Identify.handler event API_KEY generateContent)
                 _ _ Hf Hh Hai).
    + exact (page_sees_failure imageFile base64
               (fun event => Identify.handler event API_KEY generateContent)
               _ _ Hf Hh Hai).
    + exact (page_sees_failure imageFile base64
               (fun event => Identify.handler event API_KEY generateContent)
               _ _ Hf Hh Hai).
    + exact (page_sees_failure imageFile base64
               (fun event => Identify.handler event API_KEY generateContent)
               _ _ Hf Hh Hai).
  - destruct (handler_checks_in_order
                (event_of_request (ProxiedService.request imageFile base64))
                API_KEY generateContent) as (_ & Hh & _).
    refine (page_sees_failure imageFile base64
              (fun event => Identify.handler event API_KEY generateContent)
              _ _ Hf (Hh Hm Hk) _).
    vm_compute. discriminate.
Qed.

Lemma page_to_model_and_back_witness :
  let quota : GenerateContent (E := LiteralEngine) :=
    fun _ _ _ => Throw (ErrorObject (js "Error") (js "quota exceeded")) in
  fileToBase64 sample_file = Normal (js "AAAA")
  /\ ProxiedService.identifyImage (E := LiteralEngine) sample_file
       (served_by (fun event => Identify.handler event sample_key quota))
     = Normal (error_object (JString (js "AI Service Error"))
                 (JString (js "quota exceeded"))).
Proof.
  intros quota.
  assert (Hf : fileToBase64 sample_file = Normal (js "AAAA")) by reflexivity.
  split; [exact Hf|].
  rewrite (page_to_model_and_back (E := LiteralEngine) sample_file sample_key quota
             (js "AAAA") Hf).
  vm_compute. reflexivity.
Defined.
